(** * Tag extraction of [extract_tags.py]

    A shallow embedding of [extract_tags_from_text] and the properties of
    its output.

    Python's [str] is modelled by Rocq's [string]: a character is a code
    point below 256, and the character tables below ([str.lower], the
    classes [\w] and [\d] of the [re] module) are those of Python 3 on
    that range.  The set [tags] is a [gset string]; [sorted(list(tags))]
    sorts an enumeration of the set by code points. *)

From Stdlib Require Import Ascii NArith.
From stdpp Require Import gmap strings list sorting.

(** ** Characters *)

Definition code (c : ascii) : N := N_of_ascii c.

Definition between (lo hi : N) (c : ascii) : bool :=
  ((lo <=? code c) && (code c <=? hi))%N.

(** Upper-case letters: [A-Z], and U+00C0..U+00DE without the
    multiplication sign U+00D7. *)
Definition is_upper (c : ascii) : bool :=
  between 65 90 c || (between 192 222 c && negb (code c =? 215)%N).

(** [c.lower()]: every upper-case letter of the range has its lower-case
    form 32 code points above. *)
Definition lower_char (c : ascii) : ascii :=
  if is_upper c then ascii_of_N (code c + 32) else c.

(** [\d] of [re] on [str] patterns: the decimal digits. *)
Definition is_digit (c : ascii) : bool := between 48 57 c.

(** [\w] of [re] on [str] patterns: alphanumeric characters
    ([str.isalnum]) and the underscore. Above U+007F these are the
    letters (U+00AA, U+00B5, U+00BA, U+00C0..U+00FF without U+00D7 and
    U+00F7) and the numeric characters (superscripts U+00B2, U+00B3,
    U+00B9 and the fractions U+00BC..U+00BE). *)
Definition is_word (c : ascii) : bool :=
  between 48 57 c || between 65 90 c || between 97 122 c
  || (code c =? 95)%N
  || (code c =? 170)%N || (code c =? 181)%N || (code c =? 186)%N
  || (between 192 255 c && negb (code c =? 215)%N && negb (code c =? 247)%N)
  || between 178 179 c || (code c =? 185)%N || between 188 190 c.

(** ** Strings *)

(** [s.lower()]. *)
Fixpoint str_lower (s : string) : string :=
  match s with
  | EmptyString => EmptyString
  | String c s' => String (lower_char c) (str_lower s')
  end.

Fixpoint startswith (p s : string) : bool :=
  match p, s with
  | EmptyString, _ => true
  | String a p', String b s' => Ascii.eqb a b && startswith p' s'
  | String _ _, EmptyString => false
  end.

(** What follows the literal [p] at the start of [s], if [s] starts
    with it. *)
Fixpoint strip_prefix (p s : string) : option string :=
  match p, s with
  | EmptyString, _ => Some s
  | String a p', String b s' => if Ascii.eqb a b then strip_prefix p' s' else None
  | String _ _, EmptyString => None
  end.

(** [k in s]: [k] occurs in [s] as a contiguous substring. *)
Fixpoint str_in (k s : string) : bool :=
  startswith k s ||
  match s with
  | EmptyString => false
  | String _ s' => str_in k s'
  end.

(** [s.title()], on the strings it is applied to here: the vocabulary,
    which is made of the letters [a-z] and spaces. A letter that follows
    a letter is lower-cased, any other letter is upper-cased. *)
Definition is_cased (c : ascii) : bool := between 65 90 c || between 97 122 c.

Definition title_char (c : ascii) : ascii :=
  if between 97 122 c then ascii_of_N (code c - 32) else c.

Fixpoint title_from (prev_cased : bool) (s : string) : string :=
  match s with
  | EmptyString => EmptyString
  | String c s' =>
      String (if prev_cased then lower_char c else title_char c)
             (title_from (is_cased c) s')
  end.

Definition str_title (s : string) : string := title_from false s.

(** [s.replace(' ', '')]. *)
Fixpoint remove_spaces (s : string) : string :=
  match s with
  | EmptyString => EmptyString
  | String c s' =>
      if Ascii.eqb c " "%char then remove_spaces s' else String c (remove_spaces s')
  end.

(** ** Regular expressions of the source *)

Definition word_opt (o : option ascii) : bool :=
  match o with Some c => is_word c | None => false end.

Definition head_char (s : string) : option ascii :=
  match s with EmptyString => None | String c _ => Some c end.

(** [\b] at a position: [prev] is the character before it (none at the
    start of the string), [s] the rest of the string from it. *)
Definition boundary (prev : option ascii) (s : string) : bool :=
  xorb (word_opt prev) (word_opt (head_char s)).

(** The literal [lit] followed by [\b]. *)
Fixpoint match_lit_b (lit : string) (prev : option ascii) (s : string) : bool :=
  match lit with
  | EmptyString => boundary prev s
  | String a lit' =>
      match s with
      | EmptyString => false
      | String b s' => Ascii.eqb a b && match_lit_b lit' (Some b) s'
      end
  end.

(** [\b{lit}\b] at a position. *)
Definition match_word_at (lit : string) (prev : option ascii) (s : string) : bool :=
  boundary prev s && match_lit_b lit prev s.

Fixpoint search_word_from (lit : string) (prev : option ascii) (s : string) : bool :=
  match_word_at lit prev s ||
  match s with
  | EmptyString => false
  | String c s' => search_word_from lit (Some c) s'
  end.

(** [re.search(rf'\b{abbr}\b', title)] as a truth value. *)
Definition re_search_word (abbr title : string) : bool :=
  search_word_from abbr None title.

(** [\b(20\d{2})\b] at a position; the result is group 1. *)
Definition match_year_at (prev : option ascii) (s : string) : option string :=
  match strip_prefix "20" s with
  | Some (String c (String d rest)) =>
      if boundary prev s && is_digit c && is_digit d && boundary (Some d) rest
      then Some ("20" +:+ String c (String d EmptyString))
      else None
  | _ => None
  end.

Fixpoint search_year_from (prev : option ascii) (s : string) : option string :=
  match match_year_at prev s with
  | Some y => Some y
  | None =>
      match s with
      | EmptyString => None
      | String c s' => search_year_from (Some c) s'
      end
  end.

(** [re.search(r'\b(20\d{2})\b', title)]: group 1 of the leftmost match. *)
Definition re_search_year (title : string) : option string :=
  search_year_from None title.

(** The longest run of digits at the start of [s] (a greedy [\d*]). *)
Fixpoint take_digits (s : string) : string :=
  match s with
  | EmptyString => EmptyString
  | String c s' => if is_digit c then String c (take_digits s') else EmptyString
  end.

(** [Day (\d+)] at a position; the result is group 1. *)
Definition match_day_at (s : string) : option string :=
  match strip_prefix "Day " s with
  | Some rest =>
      match take_digits rest with
      | EmptyString => None
      | ds => Some ds
      end
  | None => None
  end.

(** [re.search(r'Day (\d+)', title)]: group 1 of the leftmost match. *)
Fixpoint re_search_day (title : string) : option string :=
  match match_day_at title with
  | Some ds => Some ds
  | None =>
      match title with
      | EmptyString => None
      | String _ s' => re_search_day s'
      end
  end.

(** ** The tables of [extract_tags_from_text] *)

(** The set literal [keywords], in the order it is written. Python
    iterates a set in an order of its own; [tag_set] below takes the
    order of iteration as an argument. *)
Definition keywords : list string :=
  [ (* Locations *)
    "florida"; "orlando"; "disney"; "disneyland"; "universal"; "california";
    "las vegas"; "new york"; "hollywood"; "los angeles"; "miami"; "tokyo";
    "epcot"; "magic kingdom"; "hollywood studios"; "animal kingdom";
    "kissimmee"; "st cloud"; "san diego"; "japan"; "paris"; "london";
    (* Types of places *)
    "abandoned"; "hotel"; "motel"; "restaurant"; "theme park"; "amusement park";
    "mall"; "shopping center"; "museum"; "attraction"; "resort"; "casino";
    "park"; "beach"; "airport"; "train station"; "ghost town";
    (* Activities *)
    "exploring"; "vlog"; "daily vlog"; "tour"; "review"; "unboxing";
    "shopping"; "eating"; "dining"; "traveling"; "hiking"; "walking";
    "ride"; "roller coaster"; "adventure"; "urban exploration";
    (* Specific attractions/brands *)
    "star wars"; "marvel"; "harry potter"; "transformers"; "jurassic";
    "walmart"; "target"; "mcdonalds"; "taco bell"; "arbys"; "wendys";
    "pizza hut"; "burger king"; "kfc"; "subway";
    (* Events *)
    "christmas"; "halloween"; "thanksgiving"; "new year"; "birthday";
    "fourth of july"; "easter"; "valentine";
    (* Content types *)
    "haunted"; "scary"; "creepy"; "mysterious"; "historic"; "vintage";
    "retro"; "nostalgic"; "behind the scenes"; "construction"; "demolition";
    "closed"; "opening day"; "grand opening"; "last day"; "final";
    (* Transportation *)
    "road trip"; "van life"; "driving"; "flight"; "cruise"; "train";
    (* Food *)
    "food"; "buffet"; "breakfast"; "lunch"; "dinner"; "snack"; "dessert" ].

Definition stoplist : list string :=
  ["A"; "An"; "The"; "In"; "On"; "At"; "To"; "From"].

(** The dict [states], in insertion order. *)
Definition states : list (string * string) :=
  [ ("FL", "Florida"); ("CA", "California"); ("NV", "Nevada");
    ("NY", "NewYork"); ("TX", "Texas"); ("AZ", "Arizona");
    ("GA", "Georgia"); ("NC", "NorthCarolina") ].

Definition exploration_words : list string :=
  ["abandoned"; "exploring"; "exploration"; "sneaking"; "closed"].
Definition theme_park_words : list string :=
  ["disney"; "universal"; "theme park"; "amusement"; "epcot"; "magic kingdom"].
Definition food_words : list string :=
  ["food"; "eating"; "restaurant"; "buffet"; "lunch"; "dinner"; "breakfast"; "menu"].
Definition travel_words : list string :=
  ["travel"; "trip"; "vacation"; "journey"; "adventure"].
Definition accommodation_words : list string :=
  ["hotel"; "motel"; "resort"; "room tour"; "staying at"].

(** ** [extract_tags_from_text] *)

(** [f"{title} {description}".lower()]. *)
Definition combined_text (title description : string) : string :=
  str_lower (title +:+ " " +:+ description).

(** [keyword.title().replace(' ', '')]. *)
Definition keyword_tag (keyword : string) : string :=
  remove_spaces (str_title keyword).

(** The body of the loop over [keywords]. *)
Definition add_keyword (text : string) (tags : gset string) (keyword : string)
    : gset string :=
  if str_in keyword text then
    let tag := keyword_tag keyword in
    if bool_decide (tag ∈ stoplist) then tags else tags ∪ {[ tag ]}
  else tags.

(** The body of the loop over [states.items()]. *)
Definition add_state (title text : string) (tags : gset string)
    (st : string * string) : gset string :=
  if re_search_word st.1 title || str_in (str_lower st.1) text
  then tags ∪ {[ st.2 ]} else tags.

(** [any(word in text for word in words)]. *)
Definition any_in (words : list string) (text : string) : bool :=
  existsb (λ word, str_in word text) words.

(** The set [tags] at the [return]; [kws] is the order in which the loop
    visits [keywords]. *)
Definition tag_set (kws : list string) (title description : string)
    : gset string :=
  let tags : gset string := ∅ in
  let text := combined_text title description in
  let tags := foldl (add_keyword text) tags kws in
  let tags := foldl (add_state title text) tags states in
  let tags :=
    if str_in "daily woo" text || str_in "the daily woo" text
    then tags ∪ {[ "DailyVlog" ]} ∪ {[ "DailyWoo" ]} else tags in
  let tags :=
    if any_in exploration_words text then tags ∪ {[ "UrbanExploration" ]} else tags in
  let tags :=
    if any_in theme_park_words text then tags ∪ {[ "ThemePark" ]} else tags in
  let tags :=
    if any_in food_words text then tags ∪ {[ "Food" ]} else tags in
  let tags :=
    if any_in travel_words text then tags ∪ {[ "Travel" ]} else tags in
  let tags :=
    if any_in accommodation_words text then tags ∪ {[ "Accommodation" ]} else tags in
  let tags :=
    match re_search_year title with
    | Some year => tags ∪ {[ "Year" +:+ year ]}
    | None => tags
    end in
  let tags :=
    match re_search_day title with
    | Some _ => tags ∪ {[ "DailyVlog" ]}
    | None => tags
    end in
  tags.

(** [sorted]: strings compare by code points, lexicographically. *)
Definition sorted (l : list string) : list string := merge_sort String.le l.

Definition extract_tags_from_text (title description : string) : list string :=
  sorted (elements (tag_set keywords title description)).

(** *** The body with its partial operation

    Every operation of the body is defined on all strings but one:
    [year_match.group(1)] raises [AttributeError] when [year_match] is
    [None]. Here the body is written with that operation as it is, and
    with the [if year_match:] that guards it. *)

Inductive exception := AttributeError.

Definition group_1 (m : option string) : exception + string :=
  match m with
  | Some group => inr group
  | None => inl AttributeError
  end.

Definition is_truthy (m : option string) : bool :=
  match m with Some _ => true | None => false end.

Definition extract_tags_from_text_checked (title description : string)
    : exception + list string :=
  let tags : gset string := ∅ in
  let text := combined_text title description in
  let tags := foldl (add_keyword text) tags keywords in
  let tags := foldl (add_state title text) tags states in
  let tags :=
    if str_in "daily woo" text || str_in "the daily woo" text
    then tags ∪ {[ "DailyVlog" ]} ∪ {[ "DailyWoo" ]} else tags in
  let tags :=
    if any_in exploration_words text then tags ∪ {[ "UrbanExploration" ]} else tags in
  let tags :=
    if any_in theme_park_words text then tags ∪ {[ "ThemePark" ]} else tags in
  let tags :=
    if any_in food_words text then tags ∪ {[ "Food" ]} else tags in
  let tags :=
    if any_in travel_words text then tags ∪ {[ "Travel" ]} else tags in
  let tags :=
    if any_in accommodation_words text then tags ∪ {[ "Accommodation" ]} else tags in
  let year_match := re_search_year title in
  let after_year :=
    if is_truthy year_match then
      match group_1 year_match with
      | inr year => inr (tags ∪ {[ "Year" +:+ year ]})
      | inl e => inl e
      end
    else inr tags in
  match after_year with
  | inl e => inl e
  | inr tags =>
      let day_match := re_search_day title in
      let tags := if is_truthy day_match then tags ∪ {[ "DailyVlog" ]} else tags in
      inr (sorted (elements tags))
  end.

(** ** Vocabulary of the specification *)

(** [k] occurs in [s] as a substring. *)
Definition occurs (k s : string) : Prop :=
  ∃ pre post, s = pre +:+ k +:+ post.

(** The last character of [s], or [prev] when [s] is empty. *)
Fixpoint last_char_or (prev : option ascii) (s : string) : option ascii :=
  match s with
  | EmptyString => prev
  | String c s' => last_char_or (Some c) s'
  end.

(** [s] is [pre], then [w], then [post], with a word boundary on each side
    of [w]; [prev] is the character before [s], if any. *)
Definition delimited (prev : option ascii) (s pre w post : string) : Prop :=
  s = pre +:+ w +:+ post
  ∧ boundary (last_char_or prev pre) (w +:+ post) = true
  ∧ boundary (last_char_or prev (pre +:+ w)) post = true.

(** [w] stands in [title] as a word of its own. *)
Definition word_token (w title : string) : Prop :=
  ∃ pre post, delimited None title pre w post.

(** The four characters [20dd]. *)
Definition is_year (y : string) : Prop :=
  ∃ c d, is_digit c = true ∧ is_digit d = true
         ∧ y = "20" +:+ String c (String d EmptyString).

(** A year token of [title], after [pre] and before [post]. *)
Definition year_at (title pre y post : string) : Prop :=
  is_year y ∧ delimited None title pre y post.

(** [title] contains [Day ] followed by at least one digit. *)
Definition day_token (title : string) : Prop :=
  ∃ pre c post, title = pre +:+ "Day " +:+ String c post ∧ is_digit c = true.

(** A tag that starts with [Year]. *)
Definition is_year_tag (tag : string) : Prop := startswith "Year" tag = true.

(** The rules of step 3: the words looked for and the tag they give. *)
Definition pattern_rules : list (list string * string) :=
  [ (["daily woo"; "the daily woo"], "DailyVlog");
    (["daily woo"; "the daily woo"], "DailyWoo");
    (exploration_words, "UrbanExploration");
    (theme_park_words, "ThemePark");
    (food_words, "Food");
    (travel_words, "Travel");
    (accommodation_words, "Accommodation") ].

(** What puts [tag] into the set: one disjunct per rule of the source. *)
Definition tag_rule (kws : list string) (title text tag : string) : Prop :=
  (∃ keyword, keyword ∈ kws ∧ str_in keyword text = true
              ∧ (keyword_tag keyword ∉ stoplist) ∧ tag = keyword_tag keyword)
  ∨ (∃ abbr, (abbr, tag) ∈ states
             ∧ (re_search_word abbr title = true
                ∨ str_in (str_lower abbr) text = true))
  ∨ (∃ words, (words, tag) ∈ pattern_rules ∧ any_in words text = true)
  ∨ (∃ year, re_search_year title = Some year ∧ tag = "Year" +:+ year)
  ∨ (is_Some (re_search_day title) ∧ tag = "DailyVlog").

(** Every tag that a rule other than the year rule can give. *)
Definition fixed_tags : list string :=
  (keyword_tag <$> keywords) ++ states.*2 ++ pattern_rules.*2 ++ ["DailyVlog"].

(** The keywords whose tag is [tag]. *)
Definition keywords_for (tag : string) : list string :=
  filter (λ keyword, keyword_tag keyword = tag) keywords.

(** ** The set of all tags *)



(** The tags that some rule other than its own keyword can give: for the
    keywords behind them, the tag does not tell that the keyword is in the
    text. *)
Definition shared_tags : list string :=
  states.*2 ++ pattern_rules.*2 ++ ["DailyVlog"].

(** ** [process_video_file]

    [json.load] gives the content of the file. The function reads it as a
    dict whose entry [Videos] is a list of dicts, and reads three fields of
    each of them, which are strings. The content is taken at that shape:
    a dict is a [gmap] with string keys, and a missing key raises
    [KeyError]. Opening and parsing the file are outside the model, as
    are fields that are not strings. *)

Inductive lookup_error := KeyError (key : string).

Definition bind {A B} (m : lookup_error + A) (f : A → lookup_error + B)
    : lookup_error + B :=
  match m with
  | inl e => inl e
  | inr x => f x
  end.

Notation "x ←! m ; k" := (bind m (λ x, k))
  (at level 20, m at level 100, k at level 200, right associativity,
   only parsing).

(** [d[key]]. *)
Definition getitem {V} (d : gmap string V) (key : string) : lookup_error + V :=
  match d !! key with
  | Some v => inr v
  | None => inl (KeyError key)
  end.

(** The body of the loop over [data['Videos']]. *)
Definition process_video (video_tags : gmap string (list string))
    (video : gmap string string) : lookup_error + gmap string (list string) :=
  video_id ←! getitem video "VideoId";
  title ←! getitem video "Title";
  description ←! getitem video "Description";
  let tags := extract_tags_from_text title description in
  inr (<[video_id := tags]> video_tags).

Fixpoint process_videos (video_tags : gmap string (list string))
    (videos : list (gmap string string))
    : lookup_error + gmap string (list string) :=
  match videos with
  | [] => inr video_tags
  | video :: videos' =>
      video_tags ←! process_video video_tags video;
      process_videos video_tags videos'
  end.

Definition process_video_file (data : gmap string (list (gmap string string)))
    : lookup_error + gmap string (list string) :=
  videos ←! getitem data "Videos";
  process_videos ∅ videos.

(** The three fields that the loop reads, in the order it reads them. *)
Definition required_fields : list string := ["VideoId"; "Title"; "Description"].

(** The first of the three fields that [video] does not have. *)
Definition missing_field (video : gmap string string) : option string :=
  head (filter (λ key, video !! key = None) required_fields).

(** [video] has the three fields. *)
Definition complete (video : gmap string string) : Prop :=
  ∀ key, key ∈ required_fields → is_Some (video !! key).

(** The identifiers of the videos that have one. *)
Definition video_ids (videos : list (gmap string string)) : list string :=
  omap (λ video : gmap string string, video !! "VideoId") videos.

(** Content for the examples: a video with its three fields, and a file
    with its videos. *)
Definition a_video (video_id title description : string) : gmap string string :=
  {[ "VideoId" := video_id; "Title" := title; "Description" := description ]}.

Definition a_file (videos : list (gmap string string))
    : gmap string (list (gmap string string)) :=
  {[ "Videos" := videos ]}.

(** ** [main]

    The two files are arguments, by their content. The result is what
    [main] computes: the three entries of [output], which it writes to
    [Data/VideoTags.json], and the numbers and the sample that it prints.
    Writing and printing themselves are outside the model. *)

(** [all_unique_tags.update(tags_list)]. *)
Definition update (unique : gset string) (tags_list : list string) : gset string :=
  unique ∪ list_to_set tags_list.

(** The loops that fill [all_unique_tags]. *)
Definition all_unique_tags (tags_dicts : list (gmap string (list string)))
    : gset string :=
  foldl (λ unique tags_dict, foldl update unique (map_to_list tags_dict).*2)
        ∅ tags_dicts.

Record report := {
  GeneratedAt : string;
  Description : string;
  VideoTags : gmap string (gmap string (list string));
  total_videos : nat;
  total_unique_tags : nat;
  sample_tags : list string
}.

Definition main (atw_data tdw_data : gmap string (list (gmap string string)))
    : lookup_error + report :=
  atw_tags ←! process_video_file atw_data;
  tdw_tags ←! process_video_file tdw_data;
  let all_tags : gmap string (gmap string (list string)) :=
    <["TheDailyWoo" := tdw_tags]> (<["AdamTheWoo" := atw_tags]> ∅) in
  let unique := all_unique_tags [atw_tags; tdw_tags] in
  inr {| GeneratedAt := "2026-01-10T00:00:00Z";
         Description := "Tags extracted from video titles and descriptions";
         VideoTags := all_tags;
         total_videos := size atw_tags + size tdw_tags;
         total_unique_tags := size unique;
         sample_tags := take 20 (sorted (elements unique)) |}.

(** Some video of the run has [tag]. *)
Definition tagged (run : report) (tag : string) : Prop :=
  ∃ name tags_dict video_id tags,
    VideoTags run !! name = Some tags_dict
    ∧ tags_dict !! video_id = Some tags ∧ tag ∈ tags.

(** * Properties *)

(** ** Strings *)

Lemma app_cons c s t : String c s +:+ t = String c (s +:+ t).
Proof. reflexivity. Qed.

Lemma app_nil_l s : EmptyString +:+ s = s.
Proof. reflexivity. Qed.

Lemma app_nil_r s : s +:+ EmptyString = s.
Proof. induction s as [|c s IH]; [done|]. by rewrite app_cons, IH. Qed.

Lemma app_assoc s t u : (s +:+ t) +:+ u = s +:+ t +:+ u.
Proof. induction s as [|c s IH]; [done|]. by rewrite !app_cons, IH. Qed.

Lemma app_nil_inv s t : s +:+ t = EmptyString → s = EmptyString ∧ t = EmptyString.
Proof. destruct s; [done|]. by rewrite app_cons. Qed.

Lemma str_lower_app s t : str_lower (s +:+ t) = str_lower s +:+ str_lower t.
Proof.
  induction s as [|c s IH]; [done|].
  rewrite app_cons. simpl. by rewrite IH, app_cons.
Qed.

Lemma str_lower_app_inv s a b :
  str_lower s = a +:+ b →
  ∃ s1 s2, s = s1 +:+ s2 ∧ str_lower s1 = a ∧ str_lower s2 = b.
Proof.
  revert s. induction a as [|c a IH]; intros s Hs.
  - by exists EmptyString, s.
  - destruct s as [|c' s]; [done|].
    rewrite app_cons in Hs. simpl in Hs. injection Hs as Hc Hs.
    destruct (IH _ Hs) as (s1 & s2 & -> & <- & <-).
    exists (String c' s1), s2. by rewrite app_cons, <-Hc.
Qed.

Lemma startswith_spec p s :
  startswith p s = true ↔ ∃ post, s = p +:+ post.
Proof.
  revert s. induction p as [|a p IH]; intros s.
  - split; [by exists s|done].
  - destruct s as [|b s]; simpl.
    + split; [done|]. by intros [post ?].
    + rewrite andb_true_iff, Ascii.eqb_eq, IH. split.
      * intros [-> [post ->]]. by exists post.
      * intros [post Hs]. rewrite app_cons in Hs.
        injection Hs as -> ->. eauto.
Qed.

Lemma strip_prefix_spec p s rest :
  strip_prefix p s = Some rest ↔ s = p +:+ rest.
Proof.
  revert s. induction p as [|a p IH]; intros s.
  - simpl. rewrite app_nil_l. split; congruence.
  - destruct s as [|b s]; simpl; [done|]. rewrite app_cons.
    destruct (Ascii.eqb_spec a b) as [->|Hab].
    + rewrite IH. split; congruence.
    + split; [done|]. congruence.
Qed.

Lemma str_in_unfold k s :
  str_in k s =
  startswith k s
  || match s with EmptyString => false | String _ s' => str_in k s' end.
Proof. by destruct s. Qed.

Lemma str_in_spec k s : str_in k s = true ↔ occurs k s.
Proof.
  unfold occurs. induction s as [|c s IH].
  - simpl. rewrite orb_false_r, startswith_spec. split.
    + intros [post ->]. by exists EmptyString, post.
    + intros (pre & post & Hs). symmetry in Hs.
      apply app_nil_inv in Hs as [-> Hs]. eauto.
  - rewrite str_in_unfold, orb_true_iff, IH, startswith_spec. split.
    + intros [[post ->]|(pre & post & ->)].
      * by exists EmptyString, post.
      * by exists (String c pre), post.
    + intros ([|c' pre] & post & Hs).
      * left. by exists post.
      * right. rewrite app_cons in Hs. injection Hs as -> ->. eauto.
Qed.

Lemma occurs_app_r k s t : occurs k s → occurs k (s +:+ t).
Proof.
  intros (pre & post & ->). exists pre, (post +:+ t).
  by rewrite !app_assoc.
Qed.

Lemma occurs_trans a b c : occurs a b → occurs b c → occurs a c.
Proof.
  intros (p1 & q1 & ->) (p2 & q2 & ->).
  exists (p2 +:+ p1), (q1 +:+ q2). by rewrite !app_assoc.
Qed.

Lemma str_in_app_r k s t : str_in k s = true → str_in k (s +:+ t) = true.
Proof. rewrite !str_in_spec. apply occurs_app_r. Qed.

Lemma str_in_trans a b c :
  str_in a b = true → str_in b c = true → str_in a c = true.
Proof. rewrite !str_in_spec. apply occurs_trans. Qed.

(** A substring of the lower-cased text is the lower-case form of a
    substring of the text. *)
Lemma occurs_lower k s :
  occurs k (str_lower s) ↔ ∃ w, str_lower w = k ∧ occurs w s.
Proof.
  split.
  - intros (pre & post & Hs).
    apply str_lower_app_inv in Hs as (s1 & s2 & -> & _ & Hs).
    apply str_lower_app_inv in Hs as (w & s3 & -> & Hw & _).
    exists w. split; [done|]. by exists s1, s3.
  - intros (w & <- & pre & post & ->).
    exists (str_lower pre), (str_lower post). by rewrite !str_lower_app.
Qed.

Lemma any_in_spec words text :
  any_in words text = true ↔ ∃ word, word ∈ words ∧ occurs word text.
Proof.
  unfold any_in. rewrite existsb_exists.
  by setoid_rewrite list_elem_of_In; setoid_rewrite str_in_spec.
Qed.

(** ** Regular expressions *)

Lemma last_char_or_app prev s t :
  last_char_or prev (s +:+ t) = last_char_or (last_char_or prev s) t.
Proof.
  revert prev. induction s as [|c s IH]; intros prev; [done|].
  rewrite app_cons. simpl. apply IH.
Qed.

Lemma match_lit_b_spec lit prev s :
  match_lit_b lit prev s = true
  ↔ ∃ post, s = lit +:+ post ∧ boundary (last_char_or prev lit) post = true.
Proof.
  revert prev s. induction lit as [|a lit IH]; intros prev s; simpl.
  - split; [by exists s|]. by intros (post & -> & ?).
  - destruct s as [|b s].
    + split; [done|]. by intros (post & ? & _).
    + rewrite andb_true_iff, Ascii.eqb_eq, IH. split.
      * intros [-> (post & -> & ?)]. by exists post.
      * intros (post & Hs & ?). rewrite app_cons in Hs.
        injection Hs as -> ->. eauto.
Qed.

Lemma match_word_at_spec lit prev s :
  match_word_at lit prev s = true
  ↔ ∃ post, delimited prev s EmptyString lit post.
Proof.
  unfold match_word_at, delimited.
  rewrite andb_true_iff, match_lit_b_spec. simpl. rewrite !app_nil_l. split.
  - intros (? & post & -> & ?). by exists post.
  - intros (post & -> & ? & ?). eauto.
Qed.

Lemma delimited_cons prev c s pre w post :
  delimited prev (String c s) (String c pre) w post
  ↔ delimited (Some c) s pre w post.
Proof.
  unfold delimited. rewrite !app_cons. simpl.
  split; intros (Hs & ? & ?); split_and!; try done; congruence.
Qed.

Lemma delimited_nil_inv prev pre w post :
  delimited prev EmptyString pre w post → pre = EmptyString.
Proof. intros [Hs _]. symmetry in Hs. by apply app_nil_inv in Hs as [? _]. Qed.

Lemma delimited_cons_inv prev c s c' pre w post :
  delimited prev (String c s) (String c' pre) w post → c' = c.
Proof. intros [Hs _]. rewrite app_cons in Hs. congruence. Qed.

Lemma search_word_from_spec lit prev s :
  search_word_from lit prev s = true
  ↔ ∃ pre post, delimited prev s pre lit post.
Proof.
  revert prev. induction s as [|c s IH]; intros prev; simpl.
  - rewrite orb_false_r, match_word_at_spec. split.
    + intros [post ?]. by exists EmptyString, post.
    + intros (pre & post & H).
      rewrite (delimited_nil_inv _ _ _ _ H) in H. eauto.
  - rewrite orb_true_iff, match_word_at_spec, IH. split.
    + intros [[post ?]|(pre & post & ?)].
      * by exists EmptyString, post.
      * exists (String c pre), post. by apply delimited_cons.
    + intros ([|c' pre] & post & H).
      * left. eauto.
      * right. rewrite (delimited_cons_inv _ _ _ _ _ _ _ H) in H.
        apply delimited_cons in H. eauto.
Qed.

(** [re.search(rf'\b{abbr}\b', title)] finds a match exactly when [abbr]
    stands in [title] as a word of its own. *)
Lemma re_search_word_spec abbr title :
  re_search_word abbr title = true ↔ word_token abbr title.
Proof. apply search_word_from_spec. Qed.

Lemma match_year_at_spec prev s y :
  match_year_at prev s = Some y
  ↔ is_year y ∧ ∃ post, delimited prev s EmptyString y post.
Proof.
  unfold is_year, delimited, match_year_at. setoid_rewrite app_nil_l. split.
  - destruct (strip_prefix "20" s) as [[|c [|d rest]]|] eqn:Hs; try done.
    apply strip_prefix_spec in Hs as ->.
    destruct (boundary prev _) eqn:Hb1; [|done].
    destruct (is_digit c) eqn:Hc; [|done].
    destruct (is_digit d) eqn:Hd; [|done].
    destruct (boundary (Some d) rest) eqn:Hb2; [|done].
    intros [= <-]. split; [by exists c, d|]. by exists rest.
  - intros [(c & d & Hc & Hd & ->) (post & -> & Hb1 & Hb2)].
    rewrite (proj2 (strip_prefix_spec "20" _ (String c (String d post))))
      by reflexivity.
    change (boundary prev
              (String "2" (String "0" (String c (String d EmptyString))) +:+ post)
            = true) in Hb1.
    change (boundary (Some d) post = true) in Hb2.
    by rewrite Hb1, Hc, Hd, Hb2.
Qed.

Lemma search_year_from_unfold prev s :
  search_year_from prev s =
  match match_year_at prev s with
  | Some y => Some y
  | None =>
      match s with
      | EmptyString => None
      | String c s' => search_year_from (Some c) s'
      end
  end.
Proof. by destruct s. Qed.

(** What [re.search] returns is a year token, and no year token starts
    further to the left. *)
Lemma search_year_from_sound prev s y :
  search_year_from prev s = Some y →
  ∃ pre post,
    is_year y ∧ delimited prev s pre y post
    ∧ ∀ pre' y' post',
        is_year y' → delimited prev s pre' y' post' →
        String.length pre ≤ String.length pre'.
Proof.
  revert prev. induction s as [|c s IH]; intros prev;
    rewrite search_year_from_unfold;
    destruct (match_year_at prev _) as [y0|] eqn:Hm; try done.
  - intros [= ->]. apply match_year_at_spec in Hm as [Hy [post Hd]].
    exists EmptyString, post. split_and!; [done..|]. simpl. lia.
  - intros (pre & post & Hy & Hd & Hleft)%IH.
    exists (String c pre), post. split_and!; [done|by apply delimited_cons|].
    intros [|c' pre'] y' post' Hy' Hd'.
    + assert (match_year_at prev (String c s) = Some y') as Hm'
        by (apply match_year_at_spec; eauto).
      congruence.
    + rewrite (delimited_cons_inv _ _ _ _ _ _ _ Hd') in Hd'.
      apply delimited_cons in Hd'. specialize (Hleft _ _ _ Hy' Hd').
      simpl. lia.
Qed.

(** [re.search] returns the leftmost year token. *)
Lemma search_year_from_leftmost prev s pre y post :
  is_year y → delimited prev s pre y post →
  (∀ pre' y' post',
     is_year y' → delimited prev s pre' y' post' →
     String.length pre ≤ String.length pre') →
  search_year_from prev s = Some y.
Proof.
  revert prev s. induction pre as [|c pre IH]; intros prev s Hy Hd Hleft;
    rewrite search_year_from_unfold.
  - assert (match_year_at prev s = Some y) as ->; [|done].
    apply match_year_at_spec; eauto.
  - destruct (match_year_at prev s) as [y0|] eqn:Hm.
    + apply match_year_at_spec in Hm as [Hy0 [post0 Hd0]].
      specialize (Hleft _ _ _ Hy0 Hd0). simpl in Hleft. lia.
    + destruct s as [|c' s]; [by apply delimited_nil_inv in Hd|].
      pose proof (delimited_cons_inv _ _ _ _ _ _ _ Hd) as ->.
      apply (IH _ _ Hy); [by apply (delimited_cons prev)|].
      intros pre' y' post' Hy' Hd'%(delimited_cons prev c').
      specialize (Hleft _ _ _ Hy' Hd'). simpl in Hleft. lia.
Qed.

(** A title with a year token makes the search succeed. *)
Lemma search_year_from_complete prev s pre y post :
  is_year y → delimited prev s pre y post →
  is_Some (search_year_from prev s).
Proof.
  revert prev s. induction pre as [|c pre IH]; intros prev s Hy Hd;
    rewrite search_year_from_unfold.
  - assert (match_year_at prev s = Some y) as ->; [|done].
    apply match_year_at_spec; eauto.
  - destruct (match_year_at prev s) as [y0|]; [done|].
    destruct s as [|c' s]; [by apply delimited_nil_inv in Hd|].
    pose proof (delimited_cons_inv _ _ _ _ _ _ _ Hd) as ->.
    apply (IH _ _ Hy). by apply (delimited_cons prev).
Qed.

Lemma take_digits_nonempty s :
  take_digits s ≠ EmptyString
  ↔ ∃ c post, s = String c post ∧ is_digit c = true.
Proof.
  destruct s as [|c s]; simpl.
  - split; [done|]. by intros (? & ? & ? & _).
  - destruct (is_digit c) eqn:Hc.
    + split; [eauto|done].
    + split; [done|]. intros (? & ? & [= <- <-] & ?). congruence.
Qed.

Lemma match_day_at_spec s :
  is_Some (match_day_at s)
  ↔ ∃ c post, s = "Day " +:+ String c post ∧ is_digit c = true.
Proof.
  unfold match_day_at. split.
  - destruct (strip_prefix "Day " s) as [rest|] eqn:Hs; [|by intros [? ?]].
    apply strip_prefix_spec in Hs as ->.
    destruct (take_digits rest) eqn:Ht; [by intros [? ?]|]. intros _.
    destruct (proj1 (take_digits_nonempty rest)) as (c & post & -> & ?);
      [by rewrite Ht|].
    by exists c, post.
  - intros (c & post & -> & Hc).
    assert (strip_prefix "Day " ("Day " +:+ String c post)
            = Some (String c post)) as -> by by apply strip_prefix_spec.
    destruct (take_digits (String c post)) eqn:Ht; [|done].
    exfalso. revert Ht. apply take_digits_nonempty. eauto.
Qed.

Lemma re_search_day_unfold s :
  re_search_day s =
  match match_day_at s with
  | Some ds => Some ds
  | None =>
      match s with
      | EmptyString => None
      | String _ s' => re_search_day s'
      end
  end.
Proof. by destruct s. Qed.

(** [re.search(r'Day (\d+)', title)] finds a match exactly when [title]
    contains [Day ] followed by a digit. *)
Lemma re_search_day_spec title :
  is_Some (re_search_day title) ↔ day_token title.
Proof.
  unfold day_token. induction title as [|c s IH]; rewrite re_search_day_unfold.
  - simpl. split; [by intros [? ?]|].
    intros (pre & d & post & Hs & _). symmetry in Hs.
    by apply app_nil_inv in Hs as [_ ?].
  - destruct (match_day_at (String c s)) as [ds|] eqn:Hm.
    + split; [intros _|done].
      destruct (proj1 (match_day_at_spec (String c s))) as (d & post & Hs & ?);
        [by rewrite Hm|].
      by exists EmptyString, d, post.
    + rewrite IH. split.
      * intros (pre & d & post & -> & ?). by exists (String c pre), d, post.
      * intros ([|c' pre] & d & post & Hs & Hd).
        -- rewrite app_nil_l in Hs.
           assert (is_Some (match_day_at (String c s))) as [? ?]
             by (apply match_day_at_spec; eauto).
           congruence.
        -- rewrite app_cons in Hs. injection Hs as -> ->. eauto.
Qed.

(** ** The set of tags *)

Lemma elem_of_add_keyword text (acc : gset string) k tag :
  tag ∈ add_keyword text acc k
  ↔ tag ∈ acc
    ∨ (str_in k text = true ∧ (keyword_tag k ∉ stoplist) ∧ tag = keyword_tag k).
Proof.
  unfold add_keyword. destruct (str_in k text); [case_bool_decide|].
  - tauto.
  - rewrite elem_of_union, elem_of_singleton. tauto.
  - split; [auto|]. intros [?|[? _]]; done.
Qed.

Lemma elem_of_add_keywords text kws (acc : gset string) tag :
  tag ∈ foldl (add_keyword text) acc kws
  ↔ tag ∈ acc
    ∨ ∃ keyword, keyword ∈ kws ∧ str_in keyword text = true
                 ∧ (keyword_tag keyword ∉ stoplist) ∧ tag = keyword_tag keyword.
Proof.
  revert acc. induction kws as [|k kws IH]; intros acc; simpl.
  - split; [auto|]. intros [?|(? & ?%elem_of_nil & _)]; done.
  - rewrite IH, elem_of_add_keyword. split.
    + intros [[?|?]|(k' & ? & ?)]; [by left|right..].
      * exists k. split; [apply list_elem_of_here|done].
      * exists k'. split; [by apply list_elem_of_further|done].
    + intros [?|(k' & [->|?]%elem_of_cons & ?)]; eauto.
Qed.

Lemma elem_of_add_state title text (acc : gset string) st tag :
  tag ∈ add_state title text acc st
  ↔ tag ∈ acc
    ∨ ((re_search_word st.1 title = true
        ∨ str_in (str_lower st.1) text = true) ∧ tag = st.2).
Proof.
  unfold add_state. rewrite <-orb_true_iff.
  destruct (_ || _).
  - rewrite elem_of_union, elem_of_singleton. tauto.
  - split; [auto|]. intros [?|[? _]]; done.
Qed.

Lemma elem_of_add_states title text sts (acc : gset string) tag :
  tag ∈ foldl (add_state title text) acc sts
  ↔ tag ∈ acc
    ∨ ∃ abbr, (abbr, tag) ∈ sts
              ∧ (re_search_word abbr title = true
                 ∨ str_in (str_lower abbr) text = true).
Proof.
  revert acc. induction sts as [|[a f] sts IH]; intros acc; simpl.
  - split; [auto|]. intros [?|(? & ?%elem_of_nil & _)]; done.
  - rewrite IH, elem_of_add_state. simpl. split.
    + intros [[?|[? ->]]|(a' & ? & ?)]; [by left|right..].
      * exists a. split; [apply list_elem_of_here|done].
      * exists a'. split; [by apply list_elem_of_further|done].
    + intros [?|(a' & [[= -> ->]|?]%elem_of_cons & ?)]; eauto.
Qed.

Lemma elem_of_if_union (b : bool) (X Y : gset string) tag :
  tag ∈ (if b then X ∪ Y else X) ↔ tag ∈ X ∨ (b = true ∧ tag ∈ Y).
Proof.
  destruct b; [rewrite elem_of_union; tauto|].
  split; [auto|]. intros [?|[? _]]; done.
Qed.

Lemma elem_of_pattern_rules words tag :
  (words, tag) ∈ pattern_rules
  ↔ (words = ["daily woo"; "the daily woo"] ∧ tag = "DailyVlog")
    ∨ (words = ["daily woo"; "the daily woo"] ∧ tag = "DailyWoo")
    ∨ (words = exploration_words ∧ tag = "UrbanExploration")
    ∨ (words = theme_park_words ∧ tag = "ThemePark")
    ∨ (words = food_words ∧ tag = "Food")
    ∨ (words = travel_words ∧ tag = "Travel")
    ∨ (words = accommodation_words ∧ tag = "Accommodation").
Proof.
  unfold pattern_rules. rewrite !elem_of_cons, elem_of_nil.
  rewrite !pair_eq. tauto.
Qed.

Lemma elem_of_if_union2 (b : bool) (X : gset string) (y z : string) tag :
  tag ∈ (if b then X ∪ {[ y ]} ∪ {[ z ]} else X)
  ↔ tag ∈ X ∨ (b = true ∧ (tag = y ∨ tag = z)).
Proof.
  destruct b; [rewrite !elem_of_union, !elem_of_singleton; tauto|].
  split; [auto|]. intros [?|[? _]]; done.
Qed.

Lemma elem_of_if_singleton (b : bool) (X : gset string) (y : string) tag :
  tag ∈ (if b then X ∪ {[ y ]} else X) ↔ tag ∈ X ∨ (b = true ∧ tag = y).
Proof. by rewrite elem_of_if_union, elem_of_singleton. Qed.

Lemma elem_of_match_singleton {A} (o : option A) (X : gset string)
    (f : A → string) tag :
  tag ∈ match o with Some a => X ∪ {[ f a ]} | None => X end
  ↔ tag ∈ X ∨ ∃ a, o = Some a ∧ tag = f a.
Proof.
  destruct o as [a|].
  - rewrite elem_of_union, elem_of_singleton. split.
    + intros [?|?]; eauto.
    + intros [?|(? & [= <-] & ?)]; auto.
  - split; [auto|]. intros [?|(? & ? & _)]; done.
Qed.

Lemma pattern_rules_cases tag text :
  (∃ words, (words, tag) ∈ pattern_rules ∧ any_in words text = true)
  ↔ (str_in "daily woo" text || str_in "the daily woo" text = true
       ∧ (tag = "DailyVlog" ∨ tag = "DailyWoo"))
    ∨ (any_in exploration_words text = true ∧ tag = "UrbanExploration")
    ∨ (any_in theme_park_words text = true ∧ tag = "ThemePark")
    ∨ (any_in food_words text = true ∧ tag = "Food")
    ∨ (any_in travel_words text = true ∧ tag = "Travel")
    ∨ (any_in accommodation_words text = true ∧ tag = "Accommodation").
Proof.
  assert (any_in ["daily woo"; "the daily woo"] text
          = str_in "daily woo" text || str_in "the daily woo" text) as <-.
  { simpl. by rewrite orb_false_r. }
  split.
  - intros (words & Hw%elem_of_pattern_rules & Hany).
    destruct Hw as [[-> ->]|[[-> ->]|[[-> ->]|[[-> ->]|[[-> ->]|[[-> ->]|[-> ->]]]]]]];
      tauto.
  - intros [[? [->| ->]]|[[? ->]|[[? ->]|[[? ->]|[[? ->]|[? ->]]]]]];
      eexists; (split; [apply elem_of_pattern_rules|eassumption]); tauto.
Qed.

(** A tag is in the set exactly when one of the rules puts it there. *)
Lemma elem_of_tag_set kws title description tag :
  tag ∈ tag_set kws title description
  ↔ tag_rule kws title (combined_text title description) tag.
Proof.
  unfold tag_set, tag_rule. cbv zeta. rewrite pattern_rules_cases.
  generalize (combined_text title description). intros text.
  rewrite (elem_of_match_singleton _ _ (λ _, "DailyVlog")).
  rewrite (elem_of_match_singleton _ _ (λ year, "Year" +:+ year)).
  rewrite !elem_of_if_singleton, elem_of_if_union2.
  rewrite elem_of_add_states, elem_of_add_keywords, elem_of_empty.
  cbv beta. unfold is_Some.
  assert ((∃ a : string, re_search_day title = Some a ∧ tag = "DailyVlog")
          ↔ (∃ x, re_search_day title = Some x) ∧ tag = "DailyVlog") as ->.
  { split; [intros (? & ? & ?)|intros [[? ?] ?]]; eauto. }
  tauto.
Qed.

(** ** The sorted output *)

Lemma sorted_Permutation l : sorted l ≡ₚ l.
Proof. apply merge_sort_Permutation. Qed.

Lemma sorted_Sorted l : Sorted String.le (sorted l).
Proof. apply (Sorted_merge_sort String.le). Qed.

(** The sorted list depends on the members of the list only, not on the
    order in which the set was enumerated. *)
Lemma sorted_proper l1 l2 : l1 ≡ₚ l2 → sorted l1 = sorted l2.
Proof.
  intros Hl. apply (Sorted_unique String.le); [apply sorted_Sorted..|].
  by rewrite !sorted_Permutation.
Qed.

Lemma elem_of_extract title description tag :
  tag ∈ extract_tags_from_text title description
  ↔ tag ∈ tag_set keywords title description.
Proof.
  unfold extract_tags_from_text.
  by rewrite sorted_Permutation, elem_of_elements.
Qed.

Lemma NoDup_extract title description :
  NoDup (extract_tags_from_text title description).
Proof.
  unfold extract_tags_from_text.
  rewrite sorted_Permutation. apply NoDup_elements.
Qed.

(** The set does not depend on the order in which the keywords are
    visited. *)
Lemma tag_set_proper kws1 kws2 title description :
  kws1 ≡ₚ kws2 → tag_set kws1 title description = tag_set kws2 title description.
Proof.
  intros Hk. apply set_eq. intros tag. rewrite !elem_of_tag_set.
  unfold tag_rule. by setoid_rewrite Hk.
Qed.

(** ** Facts about the tables, by evaluation *)

Lemma fixed_tags_nonempty : Forall (λ tag, tag ≠ EmptyString) fixed_tags.
Proof. apply (bool_decide_unpack _). by vm_compute. Qed.

Lemma fixed_tags_not_year : Forall (λ tag, startswith "Year" tag = false) fixed_tags.
Proof. apply (bool_decide_unpack _). by vm_compute. Qed.

Lemma keyword_tags_not_stopped :
  Forall (λ keyword, keyword_tag keyword ∉ stoplist) keywords.
Proof. apply (bool_decide_unpack _). by vm_compute. Qed.

Lemma stoplist_not_year : Forall (λ tag, startswith "Year" tag = false) stoplist.
Proof. apply (bool_decide_unpack _). by vm_compute. Qed.

Lemma fixed_tags_not_stopped : Forall (λ tag, tag ∉ stoplist) fixed_tags.
Proof. apply (bool_decide_unpack _). by vm_compute. Qed.

Lemma startswith_app p s : startswith p (p +:+ s) = true.
Proof. apply startswith_spec. eauto. Qed.

(** A tag of the output is one of the fixed tags or the year tag. *)
Lemma tag_rule_fixed title text tag :
  tag_rule keywords title text tag →
  tag ∈ fixed_tags
  ∨ ∃ year, re_search_year title = Some year ∧ tag = "Year" +:+ year.
Proof.
  unfold fixed_tags. rewrite !elem_of_app.
  intros [(k & Hk & _ & _ & ->)|[(abbr & Hs & _)|[(words & Hw & _)|[?|[_ ->]]]]].
  - left. left. by apply list_elem_of_fmap_2.
  - left. right. left. by apply (list_elem_of_fmap_2 snd _ (abbr, tag)).
  - left. right. right. left. by apply (list_elem_of_fmap_2 snd _ (words, tag)).
  - by right.
  - left. do 3 right. apply list_elem_of_here.
Qed.

Lemma elem_of_keywords_for keyword tag :
  keyword ∈ keywords → keyword_tag keyword = tag → keyword ∈ keywords_for tag.
Proof. intros. by apply list_elem_of_filter. Qed.

(** A tag that starts with [Year] comes from the year rule. *)
Lemma year_tag_inv title description tag :
  tag ∈ tag_set keywords title description → is_year_tag tag →
  ∃ year, re_search_year title = Some year ∧ tag = "Year" +:+ year.
Proof.
  intros [Hf|?]%elem_of_tag_set%tag_rule_fixed Hy; [|done].
  pose proof fixed_tags_not_year as Hall.
  rewrite Forall_forall in Hall. apply Hall in Hf.
  unfold is_year_tag in Hy. congruence.
Qed.

Lemma combined_text_app title description suffix :
  combined_text title (description +:+ suffix)
  = combined_text title description +:+ str_lower suffix.
Proof.
  unfold combined_text. by rewrite <-str_lower_app, !app_assoc.
Qed.

Lemma combined_text_lower title description :
  combined_text title description
  = str_lower title +:+ " " +:+ str_lower description.
Proof. unfold combined_text. by rewrite !str_lower_app. Qed.

Lemma any_in_mono words text text' :
  (∀ k, str_in k text = true → str_in k text' = true) →
  any_in words text = true → any_in words text' = true.
Proof.
  intros Hin. unfold any_in. rewrite !existsb_exists.
  intros (w & ? & ?). eauto.
Qed.

(** Every rule looks for substrings of the text: a text with more
    substrings gives at least the same tags. *)
Lemma tag_rule_mono kws title text text' tag :
  (∀ k, str_in k text = true → str_in k text' = true) →
  tag_rule kws title text tag → tag_rule kws title text' tag.
Proof.
  intros Hin. unfold tag_rule.
  intros [(k & ? & ? & ? & ?)|[(abbr & ? & [?|?])|[(words & ? & ?)|[?|?]]]].
  - left. exists k. eauto.
  - right; left. exists abbr. eauto.
  - right; left. exists abbr. eauto.
  - right; right; left. exists words. eauto using any_in_mono.
  - tauto.
  - tauto.
Qed.

Lemma NoDup_count_occ_1 (l : list string) x :
  NoDup l → x ∈ l → count_occ String.eq_dec l x = 1.
Proof.
  intros Hl Hx. apply NoDup_ListNoDup in Hl. apply list_elem_of_In in Hx.
  by apply (proj1 (NoDup_count_occ' String.eq_dec l) Hl).
Qed.

Lemma states_functional :
  Forall (λ st, Forall (λ st', st.2 = st'.2 → st.1 = st'.1) states) states.
Proof. apply (bool_decide_unpack _). by vm_compute. Qed.

Lemma states_not_patterns :
  Forall (λ st, Forall (λ r : list string * string, st.2 ≠ r.2) pattern_rules) states.
Proof. apply (bool_decide_unpack _). by vm_compute. Qed.

Lemma states_not_daily : Forall (λ st, st.2 ≠ "DailyVlog") states.
Proof. apply (bool_decide_unpack _). by vm_compute. Qed.

Lemma states_in_fixed_tags abbr full : (abbr, full) ∈ states → full ∈ fixed_tags.
Proof.
  intros. unfold fixed_tags. rewrite !elem_of_app. right; left.
  by apply (list_elem_of_fmap_2 snd _ (abbr, full)).
Qed.

(** A keyword whose tag is a state name contains the lower-case
    abbreviation of the state, except [new york]. *)
Lemma states_keywords :
  Forall (λ st,
    Forall (λ keyword,
      keyword_tag keyword = st.2 →
      str_in (str_lower st.1) keyword = true
      ∨ (st.2 = "NewYork" ∧ keyword = "new york")) keywords) states.
Proof. apply (bool_decide_unpack _). by vm_compute. Qed.

Lemma keywords_for_daily_vlog : keywords_for "DailyVlog" = ["daily vlog"].
Proof. by vm_compute. Qed.

(** ** The claims *)

(** C1: for every title and description, the list returned by
    [extract_tags_from_text] is sorted lexicographically, has no duplicate
    entry and has no empty string among its entries. *)
Theorem extract_sorted_nodup_nonempty title description :
  StronglySorted String.le (extract_tags_from_text title description)
  ∧ NoDup (extract_tags_from_text title description)
  ∧ EmptyString ∉ extract_tags_from_text title description.
Proof.
  split_and!.
  - apply (StronglySorted_merge_sort String.le).
  - apply NoDup_extract.
  - intros [Hf|(y & _ & Hy)]%elem_of_extract%elem_of_tag_set%tag_rule_fixed.
    + pose proof fixed_tags_nonempty as Hall.
      rewrite Forall_forall in Hall. by apply Hall in Hf.
    + done.
Qed.

(** C7: [extract_tags_from_text] returns a list for every pair of
    strings: the one operation of the body that can raise is never
    reached with [None], so no input makes the function fail; and for two
    empty strings the list is empty. *)
Theorem extract_total :
  (∀ title description,
     extract_tags_from_text_checked title description
     = inr (extract_tags_from_text title description))
  ∧ extract_tags_from_text EmptyString EmptyString = [].
Proof.
  split; [|by vm_compute].
  intros title description.
  unfold extract_tags_from_text_checked, extract_tags_from_text, tag_set.
  cbv zeta. by destruct (re_search_year title), (re_search_day title).
Qed.

(** C8: the output is determined by the title and the description. Two
    runs may visit the set [keywords] in different orders and may
    enumerate the set of tags in different orders before sorting it: they
    return the same list. *)
Theorem extract_deterministic title description kws1 kws2 l1 l2 :
  kws1 ≡ₚ keywords → kws2 ≡ₚ keywords →
  l1 ≡ₚ elements (tag_set kws1 title description) →
  l2 ≡ₚ elements (tag_set kws2 title description) →
  sorted l1 = sorted l2
  ∧ sorted l1 = extract_tags_from_text title description.
Proof.
  intros Hk1 Hk2 Hl1 Hl2. unfold extract_tags_from_text.
  rewrite (tag_set_proper _ _ _ _ Hk1) in Hl1.
  rewrite (tag_set_proper _ _ _ _ Hk2) in Hl2.
  split; apply sorted_proper; [by rewrite Hl1, Hl2|done].
Qed.

Lemma extract_deterministic_witness :
  keywords ≡ₚ keywords ∧ reverse keywords ≡ₚ keywords
  ∧ sorted (elements (tag_set keywords "Daily Woo Day 47" "Mall in FL"))
    = sorted (reverse (elements
                (tag_set (reverse keywords) "Daily Woo Day 47" "Mall in FL")))
  ∧ sorted (elements (tag_set keywords "Daily Woo Day 47" "Mall in FL"))
    = extract_tags_from_text "Daily Woo Day 47" "Mall in FL".
Proof.
  split; [reflexivity|]. split; [apply reverse_Permutation|].
  apply (extract_deterministic "Daily Woo Day 47" "Mall in FL"
           keywords (reverse keywords)).
  - reflexivity.
  - apply reverse_Permutation.
  - reflexivity.
  - apply reverse_Permutation.
Defined.

(** C10: the output depends on the description through its lower-case
    form only; the checks on the title in its original case do not read
    the description. *)
Theorem extract_description_lower title description description' :
  str_lower description = str_lower description' →
  extract_tags_from_text title description
  = extract_tags_from_text title description'.
Proof.
  intros Hd.
  assert (combined_text title description = combined_text title description')
    as Ht by by rewrite !combined_text_lower, Hd.
  unfold extract_tags_from_text, tag_set. by rewrite Ht.
Qed.

Lemma extract_description_lower_witness :
  str_lower "Road Trip to FLORIDA" = str_lower "road trip to Florida"
  ∧ extract_tags_from_text "Tour 2021" "Road Trip to FLORIDA"
    = extract_tags_from_text "Tour 2021" "road trip to Florida".
Proof.
  split; [reflexivity|].
  apply (extract_description_lower "Tour 2021"). reflexivity.
Defined.

(** C9: text appended to the description never removes a tag: every tag
    of [extract_tags_from_text t d] is a tag of
    [extract_tags_from_text t (d + s)]. *)
Theorem extract_description_monotone title description suffix tag :
  tag ∈ extract_tags_from_text title description →
  tag ∈ extract_tags_from_text title (description +:+ suffix).
Proof.
  rewrite !elem_of_extract, !elem_of_tag_set, combined_text_app.
  apply tag_rule_mono. intros k. apply str_in_app_r.
Qed.

Lemma extract_description_monotone_witness :
  "RoadTrip" ∈ extract_tags_from_text "Road" "trip"
  ∧ "RoadTrip" ∈ extract_tags_from_text "Road" ("trip" +:+ " to Florida").
Proof.
  assert ("RoadTrip" ∈ extract_tags_from_text "Road" "trip") as H
    by (apply (bool_decide_unpack _); by vm_compute).
  split; [exact H|].
  exact (extract_description_monotone "Road" "trip" " to Florida" "RoadTrip" H).
Defined.

Lemma keyword_emitted title description keyword :
  keyword ∈ keywords →
  occurs keyword (combined_text title description) →
  keyword_tag keyword ∈ extract_tags_from_text title description.
Proof.
  intros Hk Ho. apply elem_of_extract, elem_of_tag_set. left.
  exists keyword. split_and!; [done|by apply str_in_spec| |done].
  pose proof keyword_tags_not_stopped as Hall.
  rewrite Forall_forall in Hall. by apply Hall.
Qed.

Lemma pattern_emitted title description words tag word :
  (words, tag) ∈ pattern_rules → word ∈ words →
  occurs word (combined_text title description) →
  tag ∈ extract_tags_from_text title description.
Proof.
  intros Hr Hw Ho. apply elem_of_extract, elem_of_tag_set.
  right; right; left. exists words. split; [done|].
  apply any_in_spec. eauto.
Qed.

Lemma not_stopped title description tag :
  tag ∈ stoplist → tag ∉ extract_tags_from_text title description.
Proof.
  intros Hs [Hf|(y & _ & ->)]%elem_of_extract%elem_of_tag_set%tag_rule_fixed.
  - pose proof fixed_tags_not_stopped as Hall.
    rewrite Forall_forall in Hall. by apply Hall in Hf.
  - pose proof stoplist_not_year as Hall.
    rewrite Forall_forall in Hall. apply Hall in Hs.
    by rewrite startswith_app in Hs.
Qed.

(** C3: for every entry of the mapping of states, the full name is in
    the output when the abbreviation stands in the title, in its original
    case, as a word of its own, and when the lower-cased abbreviation is a
    substring of the lower-cased title, space, description. *)
Theorem state_tag_emitted title description abbr full :
  (abbr, full) ∈ states →
  word_token abbr title
  ∨ occurs (str_lower abbr) (str_lower (title +:+ " " +:+ description)) →
  full ∈ extract_tags_from_text title description
  ∧ states = [ ("FL", "Florida"); ("CA", "California"); ("NV", "Nevada");
               ("NY", "NewYork"); ("TX", "Texas"); ("AZ", "Arizona");
               ("GA", "Georgia"); ("NC", "NorthCarolina") ].
Proof.
  intros Hs Hm. split; [|done].
  apply elem_of_extract, elem_of_tag_set. right; left.
  exists abbr. split; [done|].
  destruct Hm as [?%re_search_word_spec|?%str_in_spec]; auto.
Qed.

Lemma state_tag_emitted_witness :
  ("NY", "NewYork") ∈ states
  ∧ (word_token "NY" "Pizza in NY"
     ∨ occurs (str_lower "NY") (str_lower ("Pizza in NY" +:+ " " +:+ "slices")))
  ∧ "NewYork" ∈ extract_tags_from_text "Pizza in NY" "slices".
Proof.
  assert (("NY", "NewYork") ∈ states) as Hs
    by (apply (bool_decide_unpack _); by vm_compute).
  assert (word_token "NY" "Pizza in NY") as Hw
    by (apply re_search_word_spec; by vm_compute).
  split; [exact Hs|]. split; [by left|].
  exact (proj1 (state_tag_emitted "Pizza in NY" "slices" "NY" "NewYork"
                  Hs (or_introl Hw))).
Defined.

(** C4: a keyword of the vocabulary that is a substring of the
    lower-cased text gives its tag, the keyword in title case without its
    spaces, unless the tag is in the stoplist, and a tag of the stoplist
    is never in the output. The text is matched in lower case, so the
    keyword is found in any case. *)
Theorem keyword_tag_emitted title description keyword :
  (keyword ∈ keywords →
   occurs keyword (str_lower (title +:+ " " +:+ description)) →
   keyword_tag keyword ∉ stoplist →
   remove_spaces (str_title keyword)
     ∈ extract_tags_from_text title description)
  ∧ (∀ tag, tag ∈ stoplist → tag ∉ extract_tags_from_text title description)
  ∧ (∀ w, keyword ∈ keywords → str_lower w = keyword →
          occurs w (title +:+ " " +:+ description) →
          keyword_tag keyword ∉ stoplist →
          keyword_tag keyword ∈ extract_tags_from_text title description)
  ∧ stoplist = ["A"; "An"; "The"; "In"; "On"; "At"; "To"; "From"]
  ∧ ["Exploring"; "Abandoned"; "Mall"]
      ⊆ extract_tags_from_text "Exploring an ABANDONED Mall in FL" EmptyString.
Proof.
  split_and!.
  - intros. by apply keyword_emitted.
  - intros tag. apply not_stopped.
  - intros w Hk Hw Ho _. apply keyword_emitted; [done|].
    apply occurs_lower. eauto.
  - done.
  - apply (bool_decide_unpack _). by vm_compute.
Qed.

Lemma keyword_tag_emitted_witness :
  "magic kingdom" ∈ keywords
  ∧ occurs "magic kingdom" (str_lower ("A day at MAGIC Kingdom" +:+ " " +:+ "rides"))
  ∧ (keyword_tag "magic kingdom" ∉ stoplist)
  ∧ "MagicKingdom" ∈ extract_tags_from_text "A day at MAGIC Kingdom" "rides".
Proof.
  assert ("magic kingdom" ∈ keywords) as Hk
    by (apply (bool_decide_unpack _); by vm_compute).
  assert (occurs "magic kingdom"
            (str_lower ("A day at MAGIC Kingdom" +:+ " " +:+ "rides"))) as Ho
    by (apply str_in_spec; by vm_compute).
  assert (keyword_tag "magic kingdom" ∉ stoplist) as Hn
    by (apply (bool_decide_unpack _); by vm_compute).
  split_and!; [exact Hk|exact Ho|exact Hn|].
  exact (proj1 (keyword_tag_emitted "A day at MAGIC Kingdom" "rides"
                  "magic kingdom") Hk Ho Hn).
Defined.

Lemma year_emitted title description year :
  re_search_year title = Some year →
  "Year" +:+ year ∈ extract_tags_from_text title description.
Proof.
  intros Hy. apply elem_of_extract, elem_of_tag_set.
  do 3 right. left. eauto.
Qed.

(** C5: a title with a year token has the tag [Year] followed by the
    digits of its first year token in the output, and the output never
    has two tags that start with [Year]. *)
Theorem year_tag_emitted title description :
  (∀ pre0 year0 post0,
     year_at title pre0 year0 post0 →
     ∃ pre year post,
       year_at title pre year post
       ∧ (∀ pre' year' post',
            year_at title pre' year' post' →
            String.length pre ≤ String.length pre')
       ∧ "Year" +:+ year ∈ extract_tags_from_text title description)
  ∧ (∀ pre year post,
       year_at title pre year post →
       (∀ pre' year' post',
          year_at title pre' year' post' →
          String.length pre ≤ String.length pre') →
       "Year" +:+ year ∈ extract_tags_from_text title description)
  ∧ (∀ tag tag',
       tag ∈ extract_tags_from_text title description →
       tag' ∈ extract_tags_from_text title description →
       is_year_tag tag → is_year_tag tag' → tag = tag')
  ∧ "Year2022" ∈ extract_tags_from_text "Disney Epcot Food Tour 2022"
                    "Eating our way through Epcot".
Proof.
  split_and!.
  - intros pre0 year0 post0 [Hy0 Hd0].
    destruct (search_year_from_complete _ _ _ _ _ Hy0 Hd0) as [year Hs].
    destruct (search_year_from_sound _ _ _ Hs) as (pre & post & Hy & Hd & Hleft).
    exists pre, year, post. split_and!; [by split| |by apply year_emitted].
    intros pre' year' post' [? ?]. eauto.
  - intros pre year post [Hy Hd] Hleft. apply year_emitted.
    apply (search_year_from_leftmost _ _ pre _ post); [done..|].
    intros pre' year' post' ??. by apply (Hleft pre' year' post').
  - intros tag tag' Ht Ht' Hy Hy'.
    apply elem_of_extract in Ht, Ht'.
    destruct (year_tag_inv _ _ _ Ht Hy) as (y & Hs & ->).
    destruct (year_tag_inv _ _ _ Ht' Hy') as (y' & Hs' & ->).
    congruence.
  - apply (bool_decide_unpack _). by vm_compute.
Qed.

Lemma year_tag_emitted_witness :
  year_at "Tour 2023 and 2024" "Tour 2023 and " "2024" EmptyString
  ∧ ∃ pre year post,
      year_at "Tour 2023 and 2024" pre year post
      ∧ (∀ pre' year' post',
           year_at "Tour 2023 and 2024" pre' year' post' →
           String.length pre ≤ String.length pre')
      ∧ "Year" +:+ year ∈ extract_tags_from_text "Tour 2023 and 2024" "notes".
Proof.
  assert (year_at "Tour 2023 and 2024" "Tour 2023 and " "2024" EmptyString) as H.
  { split; [by exists "2"%char, "4"%char|]. by vm_compute. }
  split; [exact H|].
  exact (proj1 (year_tag_emitted "Tour 2023 and 2024" "notes") _ _ _ H).
Defined.

Lemma daily_woo_emitted title description :
  occurs "daily woo" (combined_text title description) →
  "DailyVlog" ∈ extract_tags_from_text title description
  ∧ "DailyWoo" ∈ extract_tags_from_text title description.
Proof.
  intros Ho.
  split; apply (pattern_emitted _ _ ["daily woo"; "the daily woo"] _ "daily woo");
    try done; apply (bool_decide_unpack _); by vm_compute.
Qed.

Lemma the_daily_woo : occurs "daily woo" "the daily woo".
Proof. by exists "the ", EmptyString. Qed.

(** C6: a text that contains [daily woo] gives [DailyVlog] and
    [DailyWoo]; a title that contains [Day ] followed by a digit gives
    [DailyVlog]; when both rules fire, [DailyVlog] is in the output once. *)
Theorem daily_tags title description :
  (occurs "daily woo" (str_lower (title +:+ " " +:+ description))
   ∨ occurs "the daily woo" (str_lower (title +:+ " " +:+ description)) →
   "DailyVlog" ∈ extract_tags_from_text title description
   ∧ "DailyWoo" ∈ extract_tags_from_text title description)
  ∧ (day_token title →
     "DailyVlog" ∈ extract_tags_from_text title description)
  ∧ (occurs "daily woo" (str_lower (title +:+ " " +:+ description)) →
     day_token title →
     count_occ String.eq_dec
       (extract_tags_from_text title description) "DailyVlog" = 1)
  ∧ count_occ String.eq_dec
      (extract_tags_from_text "Daily Woo Day 47" EmptyString) "DailyVlog" = 1.
Proof.
  assert (day_token title →
          "DailyVlog" ∈ extract_tags_from_text title description) as Hday.
  { intros Hd%re_search_day_spec. apply elem_of_extract, elem_of_tag_set.
    do 4 right. by split. }
  split_and!.
  - intros [Ho|Ho]; apply daily_woo_emitted; [done|].
    exact (occurs_trans _ _ _ the_daily_woo Ho).
  - done.
  - intros _ Hd. apply NoDup_count_occ_1; [apply NoDup_extract|auto].
  - by vm_compute.
Qed.

Lemma daily_tags_witness :
  occurs "daily woo" (str_lower ("The Daily Woo Day 12" +:+ " " +:+ "vlog"))
  ∧ day_token "The Daily Woo Day 12"
  ∧ count_occ String.eq_dec
      (extract_tags_from_text "The Daily Woo Day 12" "vlog") "DailyVlog" = 1.
Proof.
  assert (occurs "daily woo"
            (str_lower ("The Daily Woo Day 12" +:+ " " +:+ "vlog"))) as Ho
    by (apply str_in_spec; by vm_compute).
  assert (day_token "The Daily Woo Day 12") as Hd
    by (apply re_search_day_spec; exists "12"; by vm_compute).
  split_and!; [exact Ho|exact Hd|].
  exact (proj1 (proj2 (proj2 (daily_tags "The Daily Woo Day 12" "vlog"))) Ho Hd).
Defined.

(** Where a state tag comes from. *)
Lemma state_tag_inv title description abbr full :
  (abbr, full) ∈ states →
  full ∈ extract_tags_from_text title description →
  word_token abbr title
  ∨ occurs (str_lower abbr) (combined_text title description)
  ∨ (full = "NewYork" ∧ occurs "new york" (combined_text title description)).
Proof.
  intros Hs Hf. apply elem_of_extract, elem_of_tag_set in Hf.
  destruct Hf as [(k & Hk & Hin & _ & ->)|[(abbr' & Hs' & Hm)
                  |[(words & Hw & _)|[(y & _ & ->)| [_ ->]]]]].
  - pose proof states_keywords as Hall.
    rewrite Forall_forall in Hall. specialize (Hall _ Hs).
    rewrite Forall_forall in Hall.
    destruct (Hall _ Hk eq_refl) as [Hsub|[? ->]]; simpl in *.
    + right; left. apply str_in_spec. by apply (str_in_trans _ k).
    + right; right. split; [done|]. by apply str_in_spec.
  - pose proof states_functional as Hall.
    rewrite Forall_forall in Hall. specialize (Hall _ Hs').
    rewrite Forall_forall in Hall. specialize (Hall _ Hs eq_refl).
    simpl in Hall. subst abbr'.
    destruct Hm as [?%re_search_word_spec|?%str_in_spec]; auto.
  - pose proof states_not_patterns as Hall.
    rewrite Forall_forall in Hall. specialize (Hall _ Hs).
    rewrite Forall_forall in Hall. by destruct (Hall _ Hw).
  - apply states_in_fixed_tags in Hs.
    pose proof fixed_tags_not_year as Hall.
    rewrite Forall_forall in Hall. apply Hall in Hs.
    by rewrite startswith_app in Hs.
  - pose proof states_not_daily as Hall.
    rewrite Forall_forall in Hall. by destruct (Hall _ Hs).
Qed.

(** Where [DailyVlog] comes from. *)
Lemma daily_vlog_inv title description :
  "DailyVlog" ∈ extract_tags_from_text title description →
  day_token title
  ∨ occurs "daily woo" (combined_text title description)
  ∨ occurs "daily vlog" (combined_text title description).
Proof.
  intros Hf. apply elem_of_extract, elem_of_tag_set in Hf.
  destruct Hf as [(k & Hk & Hin & _ & Htag)|[(abbr & Hs & _)
                  |[Hp|[(y & _ & Hy)|[Hd _]]]]].
  - apply (elem_of_keywords_for _ "DailyVlog") in Hk; [|done].
    rewrite keywords_for_daily_vlog in Hk.
    apply list_elem_of_singleton in Hk as ->.
    right; right. by apply str_in_spec.
  - pose proof states_not_daily as Hall.
    rewrite Forall_forall in Hall. by destruct (Hall _ Hs).
  - apply pattern_rules_cases in Hp.
    destruct Hp as [[Hw _]|[[_ [=]]|[[_ [=]]|[[_ [=]]|[[_ [=]]|[_ [=]]]]]]].
    right; left.
    apply orb_true_iff in Hw as [?%str_in_spec|Ho%str_in_spec]; [done|].
    exact (occurs_trans _ _ _ the_daily_woo Ho).
  - discriminate Hy.
  - left. by apply re_search_day_spec.
Qed.

(** C2, as stated: a state tag in the output would need the abbreviation
    as a word of the title. The title [flight] has the tag [Florida]
    without it. *)
Lemma state_tag_without_word :
  ("FL", "Florida") ∈ states
  ∧ "Florida" ∈ extract_tags_from_text "flight" EmptyString
  ∧ ¬ word_token "FL" "flight".
Proof.
  split_and!.
  - apply (bool_decide_unpack _). by vm_compute.
  - apply (bool_decide_unpack _). by vm_compute.
  - rewrite <-re_search_word_spec. by vm_compute.
Qed.

(** C2, amended: keywords and pattern words are matched in any case. A
    state tag is in the output only if the abbreviation is a word of the
    title in its original case, or the lower-cased abbreviation is a
    substring of the lower-cased text, or the tag is [NewYork] and the
    text contains [new york]. A tag that starts with [Year] is in the
    output only if the title has a year token, whose digits it carries.
    [DailyVlog] is in the output only if the title contains [Day ] and a
    digit, or the lower-cased text contains [daily woo] or [daily vlog]. *)
Theorem matching_case_rules title description :
  (∀ keyword w,
     keyword ∈ keywords → str_lower w = keyword →
     occurs w (title +:+ " " +:+ description) →
     keyword_tag keyword ∈ extract_tags_from_text title description)
  ∧ (∀ words tag word w,
       (words, tag) ∈ pattern_rules → word ∈ words → str_lower w = word →
       occurs w (title +:+ " " +:+ description) →
       tag ∈ extract_tags_from_text title description)
  ∧ (∀ abbr full,
       (abbr, full) ∈ states →
       full ∈ extract_tags_from_text title description →
       word_token abbr title
       ∨ occurs (str_lower abbr) (str_lower (title +:+ " " +:+ description))
       ∨ (full = "NewYork"
          ∧ occurs "new york" (str_lower (title +:+ " " +:+ description))))
  ∧ (∀ tag,
       is_year_tag tag →
       tag ∈ extract_tags_from_text title description →
       ∃ pre year post, year_at title pre year post ∧ tag = "Year" +:+ year)
  ∧ ("DailyVlog" ∈ extract_tags_from_text title description →
     day_token title
     ∨ occurs "daily woo" (str_lower (title +:+ " " +:+ description))
     ∨ occurs "daily vlog" (str_lower (title +:+ " " +:+ description))).
Proof.
  split_and!.
  - intros keyword w Hk Hw Ho. apply keyword_emitted; [done|].
    apply occurs_lower. eauto.
  - intros words tag word w Hr Hin Hw Ho.
    apply (pattern_emitted _ _ words _ word); [done..|].
    apply occurs_lower. eauto.
  - intros abbr full. apply state_tag_inv.
  - intros tag Hy Ht. apply elem_of_extract in Ht.
    destruct (year_tag_inv _ _ _ Ht Hy) as (year & Hs & ->).
    destruct (search_year_from_sound _ _ _ Hs) as (pre & post & ? & ? & _).
    exists pre, year, post. by split.
  - apply daily_vlog_inv.
Qed.

Lemma matching_case_rules_witness :
  ("NY", "NewYork") ∈ states
  ∧ "NewYork" ∈ extract_tags_from_text "Tour" "A week in New York"
  ∧ (word_token "NY" "Tour"
     ∨ occurs (str_lower "NY") (str_lower ("Tour" +:+ " " +:+ "A week in New York"))
     ∨ ("NewYork" = "NewYork"
        ∧ occurs "new york"
            (str_lower ("Tour" +:+ " " +:+ "A week in New York")))).
Proof.
  assert (("NY", "NewYork") ∈ states) as Hs
    by (apply (bool_decide_unpack _); by vm_compute).
  assert ("NewYork" ∈ extract_tags_from_text "Tour" "A week in New York") as Ht
    by (apply (bool_decide_unpack _); by vm_compute).
  split_and!; [exact Hs|exact Ht|].
  exact (proj1 (proj2 (proj2 (matching_case_rules "Tour" "A week in New York")))
           "NY" "NewYork" Hs Ht).
Defined.

(** ** More on [extract_tags_from_text] *)

Lemma keyword_tags_NoDup : NoDup (keyword_tag <$> keywords).
Proof. apply (bool_decide_unpack _). by vm_compute. Qed.

(** On the vocabulary, two keywords with the same tag are the same. *)
Lemma keyword_tag_inj k1 k2 :
  k1 ∈ keywords → k2 ∈ keywords → keyword_tag k1 = keyword_tag k2 → k1 = k2.
Proof.
  intros [i Hi]%list_elem_of_lookup [j Hj]%list_elem_of_lookup Heq.
  assert (i = j) as ->; [|congruence].
  apply (NoDup_lookup (keyword_tag <$> keywords) i j (keyword_tag k1));
    [apply keyword_tags_NoDup|..]; rewrite list_lookup_fmap.
  - by rewrite Hi.
  - by rewrite Hj, Heq.
Qed.

Lemma fixed_tags_shared tag :
  tag ∈ fixed_tags ↔ tag ∈ (keyword_tag <$> keywords) ∨ tag ∈ shared_tags.
Proof. unfold fixed_tags, shared_tags. rewrite !elem_of_app. tauto. Qed.

Lemma shared_tags_not_year : Forall (λ tag, startswith "Year" tag = false) shared_tags.
Proof. apply (bool_decide_unpack _). by vm_compute. Qed.

(** X1: a tag is in the output exactly when a rule of the body gives it:
    a keyword of the vocabulary in the text, a state by its abbreviation,
    a pattern rule by one of its words, the year of the title, or the day
    number of the title. *)
Theorem extract_tag_iff title description tag :
  tag ∈ extract_tags_from_text title description
  ↔ (∃ keyword, keyword ∈ keywords
       ∧ occurs keyword (str_lower (title +:+ " " +:+ description))
       ∧ tag = remove_spaces (str_title keyword))
    ∨ (∃ abbr, (abbr, tag) ∈ states
         ∧ (word_token abbr title
            ∨ occurs (str_lower abbr)
                     (str_lower (title +:+ " " +:+ description))))
    ∨ (∃ words word, (words, tag) ∈ pattern_rules ∧ word ∈ words
         ∧ occurs word (str_lower (title +:+ " " +:+ description)))
    ∨ (∃ pre year post,
         year_at title pre year post
         ∧ (∀ pre' year' post',
              year_at title pre' year' post' →
              String.length pre ≤ String.length pre')
         ∧ tag = "Year" +:+ year)
    ∨ (day_token title ∧ tag = "DailyVlog").
Proof.
  rewrite elem_of_extract, elem_of_tag_set. unfold tag_rule.
  fold (combined_text title description).
  set (text := combined_text title description).
  assert ((∃ keyword, keyword ∈ keywords ∧ str_in keyword text = true
             ∧ (keyword_tag keyword ∉ stoplist) ∧ tag = keyword_tag keyword)
          ↔ (∃ keyword, keyword ∈ keywords ∧ occurs keyword text
               ∧ tag = remove_spaces (str_title keyword))) as ->.
  { split.
    - intros (k & ? & ?%str_in_spec & _ & ?). eauto.
    - intros (k & Hk & ?%str_in_spec & ?). exists k. split_and!; try done.
      pose proof keyword_tags_not_stopped as Hall.
      rewrite Forall_forall in Hall. by apply Hall. }
  assert ((∃ abbr, (abbr, tag) ∈ states
             ∧ (re_search_word abbr title = true
                ∨ str_in (str_lower abbr) text = true))
          ↔ (∃ abbr, (abbr, tag) ∈ states
               ∧ (word_token abbr title ∨ occurs (str_lower abbr) text))) as ->.
  { split; intros (abbr & ? & Hm); exists abbr; (split; [done|]).
    - by rewrite <-re_search_word_spec, <-str_in_spec.
    - by rewrite <-re_search_word_spec, <-str_in_spec in Hm. }
  assert ((∃ words, (words, tag) ∈ pattern_rules ∧ any_in words text = true)
          ↔ (∃ words word, (words, tag) ∈ pattern_rules ∧ word ∈ words
               ∧ occurs word text)) as ->.
  { split.
    - intros (words & ? & (word & ? & ?)%any_in_spec). eauto.
    - intros (words & word & ? & ? & ?). exists words. split; [done|].
      apply any_in_spec. eauto. }
  assert ((∃ year, re_search_year title = Some year ∧ tag = "Year" +:+ year)
          ↔ (∃ pre year post,
               year_at title pre year post
               ∧ (∀ pre' year' post',
                    year_at title pre' year' post' →
                    String.length pre ≤ String.length pre')
               ∧ tag = "Year" +:+ year)) as ->.
  { split.
    - intros (year & Hs & ->).
      destruct (search_year_from_sound _ _ _ Hs) as (pre & post & ? & ? & Hl).
      exists pre, year, post. split_and!; [by split| |done].
      intros pre' year' post' [? ?]. eauto.
    - intros (pre & year & post & [Hy Hd] & Hl & ->). exists year.
      split; [|done].
      apply (search_year_from_leftmost _ _ pre _ post); [done..|].
      intros pre' year' post' ??. by apply (Hl pre' year' post'). }
  by rewrite re_search_day_spec.
Qed.

(** A keyword whose tag is a pattern tag, [DailyVlog] apart, contains a
    word of the rule. *)
Lemma patterns_keywords :
  Forall (λ r : list string * string,
    r.2 ≠ "DailyVlog" →
    Forall (λ keyword,
      keyword_tag keyword = r.2 → any_in r.1 keyword = true) keywords)
    pattern_rules.
Proof. apply (bool_decide_unpack _). by vm_compute. Qed.

Lemma patterns_functional :
  Forall (λ r : list string * string,
    r.2 ≠ "DailyVlog" →
    Forall (λ r' : list string * string, r.2 = r'.2 → r.1 = r'.1) pattern_rules)
    pattern_rules.
Proof. apply (bool_decide_unpack _). by vm_compute. Qed.

Lemma patterns_in_shared_tags words tag :
  (words, tag) ∈ pattern_rules → tag ∈ shared_tags.
Proof.
  intros. unfold shared_tags. rewrite !elem_of_app. right; left.
  by apply (list_elem_of_fmap_2 snd _ (words, tag)).
Qed.

(** X2: a pattern tag other than [DailyVlog] is in the output exactly
    when one of the words of its rule is in the lower-cased text: the
    keywords that give the same tag contain such a word. *)
Theorem pattern_tag_iff title description words tag :
  (words, tag) ∈ pattern_rules → tag ≠ "DailyVlog" →
  tag ∈ extract_tags_from_text title description
  ↔ ∃ word, word ∈ words
      ∧ occurs word (str_lower (title +:+ " " +:+ description)).
Proof.
  intros Hr Hne. fold (combined_text title description). split.
  - intros Ht. apply elem_of_extract, elem_of_tag_set in Ht.
    destruct Ht as [(k & Hk & Hin & _ & Htag)|[(abbr & Hs & _)
                    |[(words' & Hr' & Hany)|[(y & _ & Hy)|[_ ?]]]]]; [| | | |done].
    + pose proof patterns_keywords as Hall.
      rewrite Forall_forall in Hall. specialize (Hall _ Hr Hne).
      rewrite Forall_forall in Hall. specialize (Hall _ Hk (eq_sym Htag)).
      apply any_in_spec in Hall as (word & ? & Hw).
      exists word. split; [done|].
      apply str_in_spec in Hin. exact (occurs_trans _ _ _ Hw Hin).
    + exfalso. pose proof states_not_patterns as Hall.
      rewrite Forall_forall in Hall. specialize (Hall _ Hs).
      rewrite Forall_forall in Hall. by apply (Hall _ Hr).
    + pose proof patterns_functional as Hall.
      rewrite Forall_forall in Hall. specialize (Hall _ Hr Hne).
      rewrite Forall_forall in Hall. specialize (Hall _ Hr' eq_refl).
      simpl in Hall. subst words'. by apply any_in_spec.
    + exfalso. subst tag. apply patterns_in_shared_tags in Hr.
      pose proof shared_tags_not_year as Hall.
      rewrite Forall_forall in Hall. apply Hall in Hr.
      by rewrite startswith_app in Hr.
  - intros (word & ? & ?). by apply (pattern_emitted _ _ words _ word).
Qed.

Lemma pattern_tag_iff_witness :
  (travel_words, "Travel") ∈ pattern_rules ∧ "Travel" ≠ "DailyVlog"
  ∧ ("Travel" ∈ extract_tags_from_text "Our Vacation" "in the sun"
     ↔ ∃ word, word ∈ travel_words
         ∧ occurs word (str_lower ("Our Vacation" +:+ " " +:+ "in the sun"))).
Proof.
  assert ((travel_words, "Travel") ∈ pattern_rules) as Hr
    by (apply (bool_decide_unpack _); by vm_compute).
  assert ("Travel" ≠ "DailyVlog") as Hne by done.
  split_and!; [exact Hr|exact Hne|].
  exact (pattern_tag_iff "Our Vacation" "in the sun" travel_words "Travel" Hr Hne).
Defined.

Lemma shared_tags_in_fixed tag : tag ∈ shared_tags → tag ∈ fixed_tags.
Proof. intros. apply fixed_tags_shared. by right. Qed.

(** Where the tag of a keyword comes from, when no other rule gives it. *)
Lemma keyword_tag_inv title description keyword :
  keyword ∈ keywords → keyword_tag keyword ∉ shared_tags →
  keyword_tag keyword ∈ extract_tags_from_text title description →
  occurs keyword (combined_text title description).
Proof.
  intros Hk Hns Ht. apply elem_of_extract, elem_of_tag_set in Ht.
  destruct Ht as [(k' & Hk' & Hin & _ & Htag)|[(abbr & Hs & _)
                  |[(words & Hr & _)|[(y & _ & Hy)|[_ Hd]]]]].
  - apply keyword_tag_inj in Htag as ->; [|done..]. by apply str_in_spec.
  - destruct Hns. unfold shared_tags. rewrite !elem_of_app. left.
    by apply (list_elem_of_fmap_2 snd _ (abbr, keyword_tag keyword)).
  - destruct Hns. by apply (patterns_in_shared_tags words).
  - exfalso.
    assert (keyword_tag keyword ∈ fixed_tags) as Hf.
    { apply fixed_tags_shared. left. by apply list_elem_of_fmap_2. }
    pose proof fixed_tags_not_year as Hall.
    rewrite Forall_forall in Hall. apply Hall in Hf.
    by rewrite Hy, startswith_app in Hf.
  - destruct Hns. rewrite Hd. unfold shared_tags. rewrite !elem_of_app.
    do 2 right. apply list_elem_of_here.
Qed.

(** X3: the tag of a keyword is in the output exactly when the keyword is
    in the lower-cased text, for every keyword whose tag no other rule
    gives; the other keywords are [florida], [california], [new york],
    [theme park], [food], [urban exploration] and [daily vlog]. *)
Theorem keyword_tag_iff title description keyword :
  keyword ∈ keywords → keyword_tag keyword ∉ shared_tags →
  (keyword_tag keyword ∈ extract_tags_from_text title description
   ↔ occurs keyword (str_lower (title +:+ " " +:+ description)))
  ∧ filter (λ k, keyword_tag k ∈ shared_tags) keywords
    = ["florida"; "california"; "new york"; "theme park"; "daily vlog";
       "urban exploration"; "food"].
Proof.
  intros Hk Hns. split; [|by vm_compute]. split.
  - by apply keyword_tag_inv.
  - by apply keyword_emitted.
Qed.

Lemma keyword_tag_iff_witness :
  "hotel" ∈ keywords ∧ (keyword_tag "hotel" ∉ shared_tags)
  ∧ ("Hotel" ∈ extract_tags_from_text "Old Hotel Tour" "rooms"
     ↔ occurs "hotel" (str_lower ("Old Hotel Tour" +:+ " " +:+ "rooms"))).
Proof.
  assert ("hotel" ∈ keywords) as Hk
    by (apply (bool_decide_unpack _); by vm_compute).
  assert (keyword_tag "hotel" ∉ shared_tags) as Hns
    by (apply (bool_decide_unpack _); by vm_compute).
  split_and!; [exact Hk|exact Hns|].
  exact (proj1 (keyword_tag_iff "Old Hotel Tour" "rooms" "hotel" Hk Hns)).
Defined.

(** X4: the test against the stoplist never discards a tag: no keyword
    of the vocabulary has its tag in the stoplist, so the loop adds the
    tag of every keyword that is in the text. *)
Theorem stoplist_never_discards text (tags : gset string) keyword :
  keyword ∈ keywords →
  add_keyword text tags keyword
  = if str_in keyword text then tags ∪ {[ keyword_tag keyword ]} else tags.
Proof.
  intros Hk. unfold add_keyword. destruct (str_in keyword text); [|done].
  case_bool_decide as Hs; [|done].
  pose proof keyword_tags_not_stopped as Hall.
  rewrite Forall_forall in Hall. by destruct (Hall _ Hk).
Qed.

Lemma stoplist_never_discards_witness :
  "final" ∈ keywords
  ∧ add_keyword "the final day" ∅ "final"
    = if str_in "final" "the final day"
      then ∅ ∪ {[ keyword_tag "final" ]} else ∅.
Proof.
  assert ("final" ∈ keywords) as Hk
    by (apply (bool_decide_unpack _); by vm_compute).
  split; [exact Hk|].
  exact (stoplist_never_discards "the final day" ∅ "final" Hk).
Defined.

(** X6: a keyword that contains another keyword brings the tag of that
    keyword with its own (with [Disneyland] comes [Disney], with
    [TrainStation] comes [Train]), when no other rule gives its tag. *)
Theorem keyword_tag_implied title description k1 k2 :
  k1 ∈ keywords → k2 ∈ keywords → occurs k1 k2 →
  keyword_tag k2 ∉ shared_tags →
  keyword_tag k2 ∈ extract_tags_from_text title description →
  keyword_tag k1 ∈ extract_tags_from_text title description.
Proof.
  intros Hk1 Hk2 Ho Hns Ht. apply keyword_emitted; [done|].
  apply (occurs_trans _ k2); [done|]. by apply keyword_tag_inv.
Qed.

Lemma keyword_tag_implied_witness :
  "disney" ∈ keywords ∧ "disneyland" ∈ keywords
  ∧ occurs "disney" "disneyland"
  ∧ (keyword_tag "disneyland" ∉ shared_tags)
  ∧ keyword_tag "disneyland" ∈ extract_tags_from_text "DISNEYLAND at night" "walk"
  ∧ keyword_tag "disney" ∈ extract_tags_from_text "DISNEYLAND at night" "walk".
Proof.
  assert ("disney" ∈ keywords) as H1
    by (apply (bool_decide_unpack _); by vm_compute).
  assert ("disneyland" ∈ keywords) as H2
    by (apply (bool_decide_unpack _); by vm_compute).
  assert (occurs "disney" "disneyland") as Ho by by exists EmptyString, "land".
  assert (keyword_tag "disneyland" ∉ shared_tags) as Hns
    by (apply (bool_decide_unpack _); by vm_compute).
  assert (keyword_tag "disneyland"
            ∈ extract_tags_from_text "DISNEYLAND at night" "walk") as Ht
    by (apply (bool_decide_unpack _); by vm_compute).
  split_and!; [exact H1|exact H2|exact Ho|exact Hns|exact Ht|].
  exact (keyword_tag_implied "DISNEYLAND at night" "walk" "disney" "disneyland"
           H1 H2 Ho Hns Ht).
Defined.




Lemma size_fixed_tags : size (list_to_set fixed_tags : gset string) = 115.
Proof. by vm_compute. Qed.


Lemma length_extract title description :
  length (extract_tags_from_text title description)
  = size (tag_set keywords title description).
Proof.
  unfold extract_tags_from_text. by rewrite sorted_Permutation.
Qed.


(** X5: an output has at most 116 tags: the 115 tags that the keywords,
    the states and the patterns can give, and one year. *)
Theorem extract_length_bound title description :
  length (extract_tags_from_text title description) ≤ 116.
Proof.
  rewrite length_extract.
  set (fixed := list_to_set fixed_tags : gset string).
  assert (∃ extra : gset string,
            size extra ≤ 1 ∧ tag_set keywords title description ⊆ fixed ∪ extra)
    as (extra & Hsize & Hsub).
  { destruct (re_search_year title) as [year|] eqn:Hs.
    - exists {[ "Year" +:+ year ]}. split; [rewrite size_singleton; lia|].
      intros tag [?|(y & Hy & ->)]%elem_of_tag_set%tag_rule_fixed.
      + apply elem_of_union. left. by apply elem_of_list_to_set.
      + apply elem_of_union. right. apply elem_of_singleton. congruence.
    - exists ∅. split; [rewrite size_empty; lia|].
      intros tag [?|(y & Hy & ->)]%elem_of_tag_set%tag_rule_fixed.
      + apply elem_of_union. left. by apply elem_of_list_to_set.
      + congruence. }
  apply subseteq_size in Hsub. rewrite size_union_alt in Hsub.
  assert (size (extra ∖ fixed) ≤ size extra)
    by (apply subseteq_size; set_solver).
  unfold fixed in *. rewrite size_fixed_tags in Hsub. lia.
Qed.

(** ** [process_video_file] *)

Lemma getitem_inr {V} (d : gmap string V) key v :
  getitem d key = inr v ↔ d !! key = Some v.
Proof. unfold getitem. destruct (d !! key); split; congruence. Qed.

Lemma getitem_inl {V} (d : gmap string V) key e :
  getitem d key = inl e ↔ d !! key = None ∧ e = KeyError key.
Proof.
  unfold getitem. destruct (d !! key); split; try done.
  - by intros [? _].
  - by intros [= <-].
  - by intros [_ ->].
Qed.

Lemma complete_fields video :
  complete video
  ↔ ∃ video_id title description,
      video !! "VideoId" = Some video_id ∧ video !! "Title" = Some title
      ∧ video !! "Description" = Some description.
Proof.
  unfold complete, required_fields. split.
  - intros H.
    destruct (H "VideoId") as [i Hi]; [set_solver|].
    destruct (H "Title") as [t Ht]; [set_solver|].
    destruct (H "Description") as [d Hd]; [set_solver|]. eauto 10.
  - intros (i & t & d & Hi & Ht & Hd) key Hk.
    repeat (apply elem_of_cons in Hk as [->|Hk]; [eauto|]).
    by apply elem_of_nil in Hk.
Qed.

Lemma process_video_inr video_tags video result :
  process_video video_tags video = inr result
  ↔ ∃ video_id title description,
      video !! "VideoId" = Some video_id ∧ video !! "Title" = Some title
      ∧ video !! "Description" = Some description
      ∧ result = <[video_id := extract_tags_from_text title description]> video_tags.
Proof.
  unfold process_video, bind, getitem.
  destruct (video !! "VideoId") as [i|], (video !! "Title") as [t|],
    (video !! "Description") as [d|]; split;
    try (intros (? & ? & ? & ? & ? & ? & ?); done); try done.
  - intros [= <-]. eauto 10.
  - intros (? & ? & ? & [= <-] & [= <-] & [= <-] & ->). done.
Qed.

Lemma missing_or_complete video :
  is_Some (missing_field video) ∨ complete video.
Proof.
  unfold missing_field, complete, required_fields.
  destruct (video !! "VideoId") as [i|] eqn:Hi;
    [|left; rewrite filter_cons_True by done; by eexists].
  rewrite filter_cons_False by (by rewrite Hi).
  destruct (video !! "Title") as [t|] eqn:Ht;
    [|left; rewrite filter_cons_True by done; by eexists].
  rewrite filter_cons_False by (by rewrite Ht).
  destruct (video !! "Description") as [d|] eqn:Hd;
    [|left; rewrite filter_cons_True by done; by eexists].
  right. intros key Hk.
  repeat (apply elem_of_cons in Hk as [->|Hk]; [eauto|]).
  by apply elem_of_nil in Hk.
Qed.


Lemma process_videos_app video_tags videos1 videos2 :
  process_videos video_tags (videos1 ++ videos2)
  = bind (process_videos video_tags videos1)
         (λ video_tags', process_videos video_tags' videos2).
Proof.
  revert video_tags. induction videos1 as [|v vs IH]; intros acc; [done|].
  simpl. destruct (process_video acc v) as [e|acc']; [done|]. apply IH.
Qed.

Lemma process_videos_inr_complete video_tags videos result :
  process_videos video_tags videos = inr result → Forall complete videos.
Proof.
  revert video_tags. induction videos as [|v vs IH]; intros acc; [done|].
  simpl. destruct (process_video acc v) as [e|acc'] eqn:Hv; [done|].
  intros Hr. constructor; [|by eapply IH].
  apply process_video_inr in Hv as (i & t & d & ? & ? & ? & _).
  apply complete_fields. eauto 10.
Qed.





Lemma a_file_videos videos : a_file videos !! "Videos" = Some videos.
Proof. apply lookup_singleton_eq. Qed.

Lemma a_video_lookup video_id title description :
  a_video video_id title description !! "VideoId" = Some video_id
  ∧ a_video video_id title description !! "Title" = Some title
  ∧ a_video video_id title description !! "Description" = Some description.
Proof.
  unfold a_video. split_and!.
  - apply lookup_insert_eq.
  - rewrite lookup_insert_ne by done. apply lookup_insert_eq.
  - rewrite !lookup_insert_ne by done. apply lookup_singleton_eq.
Qed.





Lemma process_videos_lookup_other video_tags videos result video_id :
  process_videos video_tags videos = inr result →
  Forall (λ video, video !! "VideoId" ≠ Some video_id) videos →
  result !! video_id = video_tags !! video_id.
Proof.
  revert video_tags. induction videos as [|v vs IH]; intros acc; simpl.
  - by intros [= <-].
  - destruct (process_video acc v) as [e|acc'] eqn:Hv; [done|].
    intros Hr [Hne Hall]%Forall_cons. rewrite (IH _ Hr Hall).
    apply process_video_inr in Hv as (i & t & d & Hi & _ & _ & ->).
    apply lookup_insert_ne. congruence.
Qed.

(** X9: an identifier maps to the tags of the last video that carries
    it: a later video with the same [VideoId] replaces the tags of an
    earlier one. *)
Theorem process_last_wins data result before video after
    video_id title description :
  process_video_file data = inr result →
  data !! "Videos" = Some (before ++ video :: after) →
  video !! "VideoId" = Some video_id → video !! "Title" = Some title →
  video !! "Description" = Some description →
  Forall (λ later, later !! "VideoId" ≠ Some video_id) after →
  result !! video_id = Some (extract_tags_from_text title description).
Proof.
  intros Hr Hd Hi Ht Hdesc Hafter.
  unfold process_video_file, bind in Hr.
  rewrite (proj2 (getitem_inr _ _ _) Hd), process_videos_app in Hr.
  unfold bind in Hr.
  destruct (process_videos ∅ before) as [e|acc]; [done|]. simpl in Hr.
  assert (process_video acc video
          = inr (<[video_id := extract_tags_from_text title description]> acc))
    as Hv by (apply process_video_inr; eauto 10).
  rewrite Hv in Hr. simpl in Hr.
  rewrite (process_videos_lookup_other _ _ _ _ Hr Hafter).
  apply lookup_insert_eq.
Qed.

Lemma process_last_wins_witness :
  process_video_file
    (a_file ([a_video "a1" "Tour 2020" "walk"]
             ++ a_video "a1" "Hotel" "room tour" :: []))
  = inr {[ "a1" := extract_tags_from_text "Hotel" "room tour" ]}
  ∧ ({[ "a1" := extract_tags_from_text "Hotel" "room tour" ]}
       : gmap string (list string)) !! "a1"
    = Some (extract_tags_from_text "Hotel" "room tour").
Proof.
  assert (process_video_file
            (a_file ([a_video "a1" "Tour 2020" "walk"]
                     ++ a_video "a1" "Hotel" "room tour" :: []))
          = inr {[ "a1" := extract_tags_from_text "Hotel" "room tour" ]}) as Hr.
  { by vm_compute. }
  split; [exact Hr|].
  exact (process_last_wins _ _ [a_video "a1" "Tour 2020" "walk"]
           (a_video "a1" "Hotel" "room tour") [] "a1" "Hotel" "room tour"
           Hr (a_file_videos _)
           (proj1 (a_video_lookup "a1" "Hotel" "room tour"))
           (proj1 (proj2 (a_video_lookup "a1" "Hotel" "room tour")))
           (proj2 (proj2 (a_video_lookup "a1" "Hotel" "room tour")))
           (Forall_nil_2 _)).
Defined.

(** Every entry of the mapping is an entry of the initial mapping or is
    the output for a video. *)
Lemma process_videos_lookup video_tags videos result video_id tags :
  process_videos video_tags videos = inr result →
  result !! video_id = Some tags →
  video_tags !! video_id = Some tags
  ∨ ∃ video title description,
      video ∈ videos ∧ video !! "VideoId" = Some video_id
      ∧ video !! "Title" = Some title
      ∧ video !! "Description" = Some description
      ∧ tags = extract_tags_from_text title description.
Proof.
  revert video_tags. induction videos as [|v vs IH]; intros acc; simpl.
  - intros [= <-]. auto.
  - destruct (process_video acc v) as [e|acc'] eqn:Hv; [done|].
    intros Hr Hl. destruct (IH _ Hr Hl) as [Hacc|(v' & t & d & ? & ?)].
    + apply process_video_inr in Hv as (i & t & d & Hi & Ht & Hd & ->).
      destruct (decide (i = video_id)) as [->|Hne].
      * rewrite lookup_insert_eq in Hacc. injection Hacc as <-.
        right. exists v, t, d. split_and!; try done. apply list_elem_of_here.
      * rewrite lookup_insert_ne in Hacc by done. auto.
    + right. exists v', t, d. split; [by apply list_elem_of_further|done].
Qed.

Lemma process_video_file_inr data result :
  process_video_file data = inr result →
  ∃ videos, data !! "Videos" = Some videos
            ∧ process_videos ∅ videos = inr result.
Proof.
  unfold process_video_file, bind, getitem.
  destruct (data !! "Videos") as [videos|]; [eauto|done].
Qed.


(** X10: every list of tags in the mapping is the output of
    [extract_tags_from_text] for a video of the file that carries the
    identifier; it is sorted and has no duplicate. *)
Theorem process_values data result video_id tags :
  process_video_file data = inr result →
  result !! video_id = Some tags →
  (∃ videos video title description,
     data !! "Videos" = Some videos ∧ video ∈ videos
     ∧ video !! "VideoId" = Some video_id
     ∧ video !! "Title" = Some title
     ∧ video !! "Description" = Some description
     ∧ tags = extract_tags_from_text title description)
  ∧ StronglySorted String.le tags ∧ NoDup tags.
Proof.
  intros (videos & Hd & Hr)%process_video_file_inr Hl.
  destruct (process_videos_lookup _ _ _ _ _ Hr Hl)
    as [?|(v & t & d & ? & ? & ? & ? & ->)]; [done|].
  split_and!.
  - exists videos, v, t, d. done.
  - apply (StronglySorted_merge_sort String.le).
  - apply NoDup_extract.
Qed.

Lemma process_values_witness :
  process_video_file (a_file [a_video "a1" "Hotel Tour" "rooms"])
  = inr {[ "a1" := ["Accommodation"; "Hotel"; "Tour"] ]}
  ∧ ({[ "a1" := ["Accommodation"; "Hotel"; "Tour"] ]}
       : gmap string (list string)) !! "a1"
    = Some ["Accommodation"; "Hotel"; "Tour"]
  ∧ StronglySorted String.le ["Accommodation"; "Hotel"; "Tour"]
  ∧ NoDup ["Accommodation"; "Hotel"; "Tour"].
Proof.
  assert (process_video_file (a_file [a_video "a1" "Hotel Tour" "rooms"])
          = inr {[ "a1" := ["Accommodation"; "Hotel"; "Tour"] ]}) as Hr
    by by vm_compute.
  assert (({[ "a1" := ["Accommodation"; "Hotel"; "Tour"] ]}
             : gmap string (list string)) !! "a1"
          = Some ["Accommodation"; "Hotel"; "Tour"]) as Hl
    by apply lookup_singleton_eq.
  split_and!; [exact Hr|exact Hl|..];
    apply (process_values _ _ _ _ Hr Hl).
Defined.

Lemma process_videos_dom video_tags videos result :
  process_videos video_tags videos = inr result →
  dom result = dom video_tags ∪ list_to_set (video_ids videos).
Proof.
  revert video_tags. induction videos as [|v vs IH]; intros acc; simpl.
  - intros [= <-]. unfold video_ids. simpl. set_solver.
  - destruct (process_video acc v) as [e|acc'] eqn:Hv; [done|].
    intros Hr. rewrite (IH _ Hr).
    apply process_video_inr in Hv as (i & t & d & Hi & _ & _ & ->).
    unfold video_ids. simpl. rewrite Hi. simpl.
    rewrite dom_insert_L. set_solver.
Qed.

Lemma video_ids_length videos :
  Forall complete videos → length (video_ids videos) = length videos.
Proof.
  induction 1 as [|v vs Hv _ IH]; [done|].
  apply complete_fields in Hv as (i & _ & _ & Hi & _).
  unfold video_ids in *. simpl. rewrite Hi. simpl. f_equal. exact IH.
Qed.

Lemma size_list_to_set_le (l : list string) :
  size (list_to_set l : gset string) ≤ length l.
Proof.
  induction l as [|x l IH].
  - rewrite list_to_set_nil, size_empty. simpl. lia.
  - rewrite list_to_set_cons, size_union_alt, size_singleton. simpl length.
    assert (size (list_to_set l ∖ {[x]} : gset string)
            ≤ size (list_to_set l : gset string))
      by (apply subseteq_size; set_solver).
    lia.
Qed.

(** X11: the identifiers of the mapping are the identifiers of the
    videos; there are at most as many as videos, and as many when no two
    videos carry the same identifier. *)
Theorem process_size data result videos :
  process_video_file data = inr result →
  data !! "Videos" = Some videos →
  dom result = list_to_set (video_ids videos)
  ∧ size result ≤ length videos
  ∧ (NoDup (video_ids videos) → size result = length videos).
Proof.
  intros (videos' & Hd & Hr)%process_video_file_inr Hd'.
  assert (videos' = videos) as -> by congruence.
  pose proof (process_videos_dom _ _ _ Hr) as Hdom.
  rewrite dom_empty_L, (left_id_L ∅ (∪)) in Hdom.
  pose proof (video_ids_length _ (process_videos_inr_complete _ _ _ Hr)) as Hlen.
  rewrite <-size_dom, Hdom, <-Hlen. split_and!.
  - done.
  - apply size_list_to_set_le.
  - apply size_list_to_set.
Qed.

Lemma process_size_witness :
  process_video_file
    (a_file [a_video "a1" "Hotel Tour" "rooms"; a_video "a1" "Mall" "shops"])
  = inr {[ "a1" := ["Mall"] ]}
  ∧ a_file [a_video "a1" "Hotel Tour" "rooms"; a_video "a1" "Mall" "shops"]
      !! "Videos"
    = Some [a_video "a1" "Hotel Tour" "rooms"; a_video "a1" "Mall" "shops"]
  ∧ size ({[ "a1" := ["Mall"] ]} : gmap string (list string))
    ≤ length [a_video "a1" "Hotel Tour" "rooms"; a_video "a1" "Mall" "shops"].
Proof.
  assert (process_video_file
            (a_file [a_video "a1" "Hotel Tour" "rooms";
                     a_video "a1" "Mall" "shops"])
          = inr {[ "a1" := ["Mall"] ]}) as Hr by by vm_compute.
  split_and!; [exact Hr|apply a_file_videos|].
  exact (proj1 (proj2 (process_size _ _ _ Hr (a_file_videos _)))).
Defined.

Lemma process_video_fields video_tags video video' :
  (∀ key, key ∈ required_fields → video !! key = video' !! key) →
  process_video video_tags video = process_video video_tags video'.
Proof.
  intros Heq. unfold process_video, getitem.
  rewrite (Heq "VideoId"), (Heq "Title"), (Heq "Description");
    [done|unfold required_fields; set_solver..].
Qed.

(** X12: the mapping depends on the entry [Videos] only, and on the
    three fields of each video only: other entries of the file and other
    fields of a video are not read. *)
Theorem process_reads_three_fields data data' videos videos' :
  data !! "Videos" = Some videos → data' !! "Videos" = Some videos' →
  Forall2 (λ video video',
             ∀ key, key ∈ ["VideoId"; "Title"; "Description"] →
                    video !! key = video' !! key) videos videos' →
  process_video_file data = process_video_file data'.
Proof.
  intros Hd Hd' Hall. unfold process_video_file, bind.
  rewrite (proj2 (getitem_inr _ _ _) Hd), (proj2 (getitem_inr _ _ _) Hd').
  clear Hd Hd'. generalize (∅ : gmap string (list string)).
  induction Hall as [|v v' vs vs' Hv _ IH]; intros acc; [done|].
  simpl. rewrite (process_video_fields acc v v' Hv).
  destruct (process_video acc v'); [done|]. apply IH.
Qed.

Lemma process_reads_three_fields_witness :
  a_file [a_video "a1" "Hotel" "rooms"] !! "Videos"
  = Some [a_video "a1" "Hotel" "rooms"]
  ∧ <["Channel" := []]> (a_file [<["Views" := "12"]> (a_video "a1" "Hotel" "rooms")])
      !! "Videos"
    = Some [<["Views" := "12"]> (a_video "a1" "Hotel" "rooms")]
  ∧ process_video_file (a_file [a_video "a1" "Hotel" "rooms"])
    = process_video_file
        (<["Channel" := []]>
           (a_file [<["Views" := "12"]> (a_video "a1" "Hotel" "rooms")])).
Proof.
  assert (<["Channel" := []]>
            (a_file [<["Views" := "12"]> (a_video "a1" "Hotel" "rooms")])
            !! "Videos"
          = Some [<["Views" := "12"]> (a_video "a1" "Hotel" "rooms")]) as Hd'.
  { rewrite lookup_insert_ne by done. apply a_file_videos. }
  split_and!; [apply a_file_videos|exact Hd'|].
  apply (process_reads_three_fields _ _ _ _ (a_file_videos _) Hd').
  constructor; [|constructor]. intros key Hk.
  rewrite lookup_insert_ne; [done|].
  intros <-. revert Hk. apply (bool_decide_unpack _). by vm_compute.
Defined.

(** ** [main] *)

Lemma elem_of_foldl_update (unique : gset string) (lists : list (list string)) tag :
  tag ∈ foldl update unique lists
  ↔ tag ∈ unique ∨ ∃ tags, tags ∈ lists ∧ tag ∈ tags.
Proof.
  revert unique. induction lists as [|l ls IH]; intros unique; simpl.
  - split; [auto|]. intros [?|(? & ?%elem_of_nil & _)]; done.
  - rewrite IH. unfold update.
    rewrite elem_of_union, elem_of_list_to_set. split.
    + intros [[?|?]|(tags & ? & ?)]; [by left|right..].
      * exists l. split; [apply list_elem_of_here|done].
      * exists tags. split; [by apply list_elem_of_further|done].
    + intros [?|(tags & [->|?]%elem_of_cons & ?)]; eauto.
Qed.

Lemma elem_of_values (tags_dict : gmap string (list string)) tags :
  tags ∈ (map_to_list tags_dict).*2 ↔ ∃ video_id, tags_dict !! video_id = Some tags.
Proof.
  rewrite list_elem_of_fmap. split.
  - intros ([i l] & -> & ?%elem_of_map_to_list). eauto.
  - intros [i ?]. exists (i, tags). split; [done|]. by apply elem_of_map_to_list.
Qed.

Lemma elem_of_all_unique_tags_from (unique : gset string)
    (tags_dicts : list (gmap string (list string))) tag :
  tag ∈ foldl (λ unique (tags_dict : gmap string (list string)),
                 foldl update unique (map_to_list tags_dict).*2)
              unique tags_dicts
  ↔ tag ∈ unique
    ∨ ∃ tags_dict video_id tags,
        tags_dict ∈ tags_dicts ∧ tags_dict !! video_id = Some tags ∧ tag ∈ tags.
Proof.
  revert unique. induction tags_dicts as [|m ms IH]; intros unique; simpl.
  - split; [auto|]. intros [?|(? & ? & ? & ?%elem_of_nil & _)]; done.
  - rewrite IH, elem_of_foldl_update. split.
    + intros [[?|(tags & (i & ?)%elem_of_values & ?)]|(m' & i & tags & ? & ?)].
      * by left.
      * right. exists m, i, tags. split; [apply list_elem_of_here|done].
      * right. exists m', i, tags. split; [by apply list_elem_of_further|done].
    + intros [?|(m' & i & tags & [->|?]%elem_of_cons & ? & ?)].
      * by left; left.
      * left; right. exists tags. split; [|done]. apply elem_of_values. eauto.
      * right. exists m', i, tags. done.
Qed.

Lemma elem_of_all_unique_tags tags_dicts tag :
  tag ∈ all_unique_tags tags_dicts
  ↔ ∃ tags_dict video_id tags,
      tags_dict ∈ tags_dicts ∧ tags_dict !! video_id = Some tags ∧ tag ∈ tags.
Proof.
  unfold all_unique_tags. rewrite elem_of_all_unique_tags_from, elem_of_empty.
  tauto.
Qed.

Lemma main_inr atw_data tdw_data run :
  main atw_data tdw_data = inr run
  ↔ ∃ atw_tags tdw_tags,
      process_video_file atw_data = inr atw_tags
      ∧ process_video_file tdw_data = inr tdw_tags
      ∧ run = {| GeneratedAt := "2026-01-10T00:00:00Z";
           Description := "Tags extracted from video titles and descriptions";
           VideoTags :=
                   <["TheDailyWoo" := tdw_tags]> (<["AdamTheWoo" := atw_tags]> ∅);
                 total_videos := size atw_tags + size tdw_tags;
                 total_unique_tags := size (all_unique_tags [atw_tags; tdw_tags]);
                 sample_tags :=
                   take 20 (sorted (elements (all_unique_tags [atw_tags; tdw_tags]))) |}.
Proof.
  unfold main, bind.
  destruct (process_video_file atw_data) as [e|atw];
    [split; [done|by intros (? & ? & ? & _)]|].
  destruct (process_video_file tdw_data) as [e|tdw];
    [split; [done|by intros (? & ? & _ & ? & _)]|].
  split.
  - intros [= <-]. eauto.
  - by intros (? & ? & [= <-] & [= <-] & ->).
Qed.

Lemma tagged_unique atw_tags tdw_tags run tag :
  VideoTags run
  = <["TheDailyWoo" := tdw_tags]> (<["AdamTheWoo" := atw_tags]> ∅) →
  tagged run tag ↔ tag ∈ all_unique_tags [atw_tags; tdw_tags].
Proof.
  intros Hv. unfold tagged. rewrite Hv, elem_of_all_unique_tags. split.
  - intros (name & m & i & tags & Hn & ? & ?). exists m, i, tags.
    split; [|done].
    destruct (decide (name = "TheDailyWoo")) as [->|?].
    { rewrite lookup_insert_eq in Hn. injection Hn as <-. set_solver. }
    rewrite lookup_insert_ne in Hn by done.
    destruct (decide (name = "AdamTheWoo")) as [->|?].
    { rewrite lookup_insert_eq in Hn. injection Hn as <-. set_solver. }
    by rewrite lookup_insert_ne, lookup_empty in Hn.
  - intros (m & i & tags & Hm & ? & ?).
    apply elem_of_cons in Hm as [->|Hm].
    { exists "AdamTheWoo", atw_tags, i, tags. split; [|done].
      rewrite lookup_insert_ne by done. apply lookup_insert_eq. }
    apply list_elem_of_singleton in Hm as ->.
    exists "TheDailyWoo", tdw_tags, i, tags. split; [|done].
    apply lookup_insert_eq.
Qed.

(** X13: the sample that [main] prints is sorted and has no duplicate;
    it has 20 tags, or all of them when there are fewer; each is a tag of
    some video, and no tag of a video that is left out of the sample
    comes before a tag of the sample. *)
Theorem main_sample atw_data tdw_data run :
  main atw_data tdw_data = inr run →
  StronglySorted String.le (sample_tags run)
  ∧ NoDup (sample_tags run)
  ∧ length (sample_tags run) = min 20 (total_unique_tags run)
  ∧ (∀ tag, tag ∈ sample_tags run → tagged run tag)
  ∧ (∀ tag tag', tag ∈ sample_tags run → tagged run tag' →
                 tag' ∉ sample_tags run → String.le tag tag').
Proof.
  intros (atw & tdw & _ & _ & ->)%main_inr. simpl.
  set (unique := all_unique_tags [atw; tdw]).
  set (all := sorted (elements unique)).
  assert (StronglySorted String.le all) as Hs
    by apply (StronglySorted_merge_sort String.le).
  assert (NoDup all) as Hn
    by (unfold all; rewrite sorted_Permutation; apply NoDup_elements).
  assert (∀ tag, tag ∈ all ↔ tag ∈ unique) as Hin
    by (intros tag; unfold all; by rewrite sorted_Permutation, elem_of_elements).
  rewrite <-(take_drop 20 all) in Hs, Hn.
  apply StronglySorted_app in Hs as (Hle & Hs & _).
  apply NoDup_app in Hn as (Hn & _ & _).
  split_and!; [done|done| | |].
  - rewrite length_take. f_equal. unfold all.
    by rewrite sorted_Permutation.
  - intros tag Ht%subseteq_take. by apply (tagged_unique atw tdw), Hin.
  - intros tag tag' Ht Ht' Hnot. apply Hle; [done|].
    apply (tagged_unique atw tdw), Hin in Ht'; [|done].
    rewrite <-(take_drop 20 all) in Ht'.
    by apply elem_of_app in Ht' as [?|?].
Qed.

Lemma main_sample_witness :
  main (a_file [a_video "a1" "Hotel Tour" "rooms"])
       (a_file [a_video "b1" "Mall" "shops"])
  = inr {| GeneratedAt := "2026-01-10T00:00:00Z";
           Description := "Tags extracted from video titles and descriptions";
           VideoTags :=
             <["TheDailyWoo" := {[ "b1" := ["Mall"] ]}]>
               (<["AdamTheWoo" := {[ "a1" := ["Accommodation"; "Hotel"; "Tour"] ]}]> ∅);
           total_videos := 2; total_unique_tags := 4;
           sample_tags := ["Accommodation"; "Hotel"; "Mall"; "Tour"] |}
  ∧ StronglySorted String.le ["Accommodation"; "Hotel"; "Mall"; "Tour"].
Proof.
  assert (main (a_file [a_video "a1" "Hotel Tour" "rooms"])
               (a_file [a_video "b1" "Mall" "shops"])
          = inr {| GeneratedAt := "2026-01-10T00:00:00Z";
           Description := "Tags extracted from video titles and descriptions";
           VideoTags :=
                     <["TheDailyWoo" := {[ "b1" := ["Mall"] ]}]>
                       (<["AdamTheWoo" :=
                            {[ "a1" := ["Accommodation"; "Hotel"; "Tour"] ]}]> ∅);
                   total_videos := 2; total_unique_tags := 4;
                   sample_tags := ["Accommodation"; "Hotel"; "Mall"; "Tour"] |})
    as Hr by by vm_compute.
  split; [exact Hr|].
  exact (proj1 (main_sample _ _ _ Hr)).
Defined.






(** X16: the total that [main] prints is the number of distinct
    identifiers of the first file plus that of the second: a video whose
    identifier is in both files counts twice, one whose identifier comes
    twice in a file counts once. It is at most the number of videos. *)
Theorem main_total_videos atw_data tdw_data run atw_videos tdw_videos :
  main atw_data tdw_data = inr run →
  atw_data !! "Videos" = Some atw_videos →
  tdw_data !! "Videos" = Some tdw_videos →
  total_videos run
  = size (list_to_set (video_ids atw_videos) : gset string)
    + size (list_to_set (video_ids tdw_videos) : gset string)
  ∧ total_videos run ≤ length atw_videos + length tdw_videos.
Proof.
  intros (atw & tdw & Ha & Hb & ->)%main_inr Hda Hdb. simpl.
  apply process_video_file_inr in Ha as (va & Hda' & Ha).
  apply process_video_file_inr in Hb as (vb & Hdb' & Hb).
  assert (va = atw_videos) as -> by congruence.
  assert (vb = tdw_videos) as -> by congruence.
  pose proof (process_videos_dom _ _ _ Ha) as Hdoma.
  pose proof (process_videos_dom _ _ _ Hb) as Hdomb.
  rewrite dom_empty_L, (left_id_L ∅ (∪)) in Hdoma, Hdomb.
  rewrite <-(size_dom atw), <-(size_dom tdw), Hdoma, Hdomb.
  split; [done|].
  pose proof (size_list_to_set_le (video_ids atw_videos)).
  pose proof (size_list_to_set_le (video_ids tdw_videos)).
  pose proof (video_ids_length _ (process_videos_inr_complete _ _ _ Ha)).
  pose proof (video_ids_length _ (process_videos_inr_complete _ _ _ Hb)).
  lia.
Qed.

Lemma main_total_videos_witness :
  main (a_file [a_video "a1" "Hotel Tour" "rooms"; a_video "a1" "Mall" "shops"])
       (a_file [a_video "a1" "Mall" "shops"])
  = inr {| GeneratedAt := "2026-01-10T00:00:00Z";
           Description := "Tags extracted from video titles and descriptions";
           VideoTags :=
             <["TheDailyWoo" := {[ "a1" := ["Mall"] ]}]>
               (<["AdamTheWoo" := {[ "a1" := ["Mall"] ]}]> ∅);
           total_videos := 2; total_unique_tags := 1;
           sample_tags := ["Mall"] |}
  ∧ 2 ≤ length [a_video "a1" "Hotel Tour" "rooms"; a_video "a1" "Mall" "shops"]
        + length [a_video "a1" "Mall" "shops"].
Proof.
  assert (main (a_file [a_video "a1" "Hotel Tour" "rooms";
                        a_video "a1" "Mall" "shops"])
               (a_file [a_video "a1" "Mall" "shops"])
          = inr {| GeneratedAt := "2026-01-10T00:00:00Z";
           Description := "Tags extracted from video titles and descriptions";
           VideoTags :=
                     <["TheDailyWoo" := {[ "a1" := ["Mall"] ]}]>
                       (<["AdamTheWoo" := {[ "a1" := ["Mall"] ]}]> ∅);
                   total_videos := 2; total_unique_tags := 1;
                   sample_tags := ["Mall"] |}) as Hr by by vm_compute.
  split; [exact Hr|].
  exact (proj2 (main_total_videos _ _ _ _ _ Hr
                  (a_file_videos _) (a_file_videos _))).
Defined.
